(** * GuitarAmpEffects: the effects chain of the virtual guitar amplifier

    A shallow embedding of [src/effects.py].  Samples are modelled as real
    numbers (exact arithmetic, no rounding); an audio block is a [list R];
    the engine object is a record and every method is a computation in a
    state-and-exception monad over that record. *)

From Stdlib Require Import Reals Lra Lia ZArith List String.
From Stdlib Require Import Floats.
Set Warnings "-inexact-float".
From stdpp Require Import base option list gmap strings.

Open Scope R_scope.

(** ** Exceptions and the method monad *)

Inductive exn : Type :=
| IndexError
| ZeroDivisionError
| ValueError.

Inductive result (A : Type) : Type :=
| Ok (a : A)
| Raise (e : exn).

Arguments Ok {A} a.
Arguments Raise {A} e.

(** ** The engine object *)

Record GuitarAmpEffects : Type := mkEffects {
  sample_rate : Z;
  gain : R;
  distortion : R;
  bass : R;
  mid : R;
  treble : R;
  reverb_mix : R;
  reverb_buffer_size : Z;
  reverb_buffer : list R;
  reverb_index : Z
}.

(** A method takes [self] and either raises or returns a value together
    with the (possibly mutated) object. *)
Definition M (A : Type) : Type := GuitarAmpEffects -> result (A * GuitarAmpEffects).

Definition ret {A : Type} (a : A) : M A := fun self => Ok (a, self).

Definition bind {A B : Type} (m : M A) (k : A -> M B) : M B :=
  fun self =>
    match m self with
    | Ok (a, self') => k a self'
    | Raise e => Raise e
    end.

Definition get_self : M GuitarAmpEffects := fun self => Ok (self, self).

Definition modify (f : GuitarAmpEffects -> GuitarAmpEffects) : M unit :=
  fun self => Ok (tt, f self).

Notation "'let*' x := m 'in' k" := (bind m (fun x => k))
  (at level 10, x name, m at level 100, k at level 200).

(** Python's [==] on floats, here on reals. *)
Definition Reqb (x y : R) : bool := if Req_dec_T x y then true else false.

(** ** numpy helpers *)

(** [np.clip(v, lo, hi)] is [minimum(hi, maximum(v, lo))]. *)
Definition np_clip (v lo hi : R) : R := Rmin hi (Rmax v lo).

(** Index normalisation of a one-dimensional array of length [len]:
    indices in [0, len) are used as they are, indices in [-len, 0) count
    from the end, everything else is an [IndexError]. *)
Definition np_index (len : nat) (i : Z) : option nat :=
  if ((0 <=? i) && (i <? Z.of_nat len))%Z then Some (Z.to_nat i)
  else if ((- Z.of_nat len <=? i) && (i <? 0))%Z then Some (Z.to_nat (Z.of_nat len + i))
  else None.

Definition np_getitem (a : list R) (i : Z) : result R :=
  match np_index (length a) i with
  | Some n => match a !! n with Some v => Ok v | None => Raise IndexError end
  | None => Raise IndexError
  end.

Definition np_setitem (a : list R) (i : Z) (v : R) : result (list R) :=
  match np_index (length a) i with
  | Some n => Ok (<[n := v]> a)
  | None => Raise IndexError
  end.

(** Python's [%] on ints: floor modulo, [ZeroDivisionError] on a zero
    divisor. *)
Definition py_mod (a b : Z) : result Z :=
  if (b =? 0)%Z then Raise ZeroDivisionError else Ok (a mod b)%Z.

(** [np.zeros(n)]: a negative dimension is a [ValueError]. *)
Definition np_zeros (n : Z) : result (list R) :=
  if (n <? 0)%Z then Raise ValueError else Ok (replicate (Z.to_nat n) 0).

(** ** Construction: [__init__] *)

(** [int(0.05 * sample_rate)]: truncation toward zero of a twentieth of
    the sample rate. *)
Definition reverb_capacity (sr : Z) : Z := Z.quot sr 20.

Definition init (sr : Z) : result GuitarAmpEffects :=
  match np_zeros (reverb_capacity sr) with
  | Ok buf =>
      Ok {| sample_rate := sr;
            gain := 1; distortion := 0; bass := 0; mid := 0; treble := 0;
            reverb_mix := 0;
            reverb_buffer_size := reverb_capacity sr;
            reverb_buffer := buf;
            reverb_index := 0 |}
  | Raise e => Raise e
  end.

(** ** Field updates *)

Definition set_gain (v : R) (s : GuitarAmpEffects) : GuitarAmpEffects :=
  mkEffects (sample_rate s) v (distortion s) (bass s) (mid s) (treble s)
            (reverb_mix s) (reverb_buffer_size s) (reverb_buffer s) (reverb_index s).
Definition set_distortion (v : R) (s : GuitarAmpEffects) : GuitarAmpEffects :=
  mkEffects (sample_rate s) (gain s) v (bass s) (mid s) (treble s)
            (reverb_mix s) (reverb_buffer_size s) (reverb_buffer s) (reverb_index s).
Definition set_bass (v : R) (s : GuitarAmpEffects) : GuitarAmpEffects :=
  mkEffects (sample_rate s) (gain s) (distortion s) v (mid s) (treble s)
            (reverb_mix s) (reverb_buffer_size s) (reverb_buffer s) (reverb_index s).
Definition set_mid (v : R) (s : GuitarAmpEffects) : GuitarAmpEffects :=
  mkEffects (sample_rate s) (gain s) (distortion s) (bass s) v (treble s)
            (reverb_mix s) (reverb_buffer_size s) (reverb_buffer s) (reverb_index s).
Definition set_treble (v : R) (s : GuitarAmpEffects) : GuitarAmpEffects :=
  mkEffects (sample_rate s) (gain s) (distortion s) (bass s) (mid s) v
            (reverb_mix s) (reverb_buffer_size s) (reverb_buffer s) (reverb_index s).
Definition set_reverb_mix (v : R) (s : GuitarAmpEffects) : GuitarAmpEffects :=
  mkEffects (sample_rate s) (gain s) (distortion s) (bass s) (mid s) (treble s)
            v (reverb_buffer_size s) (reverb_buffer s) (reverb_index s).
Definition set_reverb_buffer (v : list R) (s : GuitarAmpEffects) : GuitarAmpEffects :=
  mkEffects (sample_rate s) (gain s) (distortion s) (bass s) (mid s) (treble s)
            (reverb_mix s) (reverb_buffer_size s) v (reverb_index s).
Definition set_reverb_index (v : Z) (s : GuitarAmpEffects) : GuitarAmpEffects :=
  mkEffects (sample_rate s) (gain s) (distortion s) (bass s) (mid s) (treble s)
            (reverb_mix s) (reverb_buffer_size s) (reverb_buffer s) v.

(** ** [set_parameters] with keyword arguments *)

(** One [if name in kwargs: self.name = np.clip(kwargs[name], lo, hi)]. *)
Definition clip_field (kwargs : gmap string R) (name : string) (lo hi : R)
    (setter : R -> GuitarAmpEffects -> GuitarAmpEffects)
    (s : GuitarAmpEffects) : GuitarAmpEffects :=
  match kwargs !! name with
  | Some v => setter (np_clip v lo hi) s
  | None => s
  end.

Definition set_parameters (kwargs : gmap string R) : M unit :=
  fun self =>
    let s1 := clip_field kwargs "gain" (1/10) 5 set_gain self in
    let s2 := clip_field kwargs "distortion" 0 1 set_distortion s1 in
    let s3 := clip_field kwargs "bass" (-1) 1 set_bass s2 in
    let s4 := clip_field kwargs "mid" (-1) 1 set_mid s3 in
    let s5 := clip_field kwargs "treble" (-1) 1 set_treble s4 in
    let s6 := clip_field kwargs "reverb_mix" 0 1 set_reverb_mix s5 in
    Ok (tt, s6).

(** ** Stage: gain *)

Definition apply_gain (audio : list R) : M (list R) :=
  fun self => Ok (map (fun x => x * gain self) audio, self).

(** ** Stage: distortion *)

Definition apply_distortion (audio : list R) : M (list R) :=
  fun self =>
    if Reqb (distortion self) 0 then Ok (audio, self)
    else
      let dist_factor := 1 + distortion self * 49 in
      let audio' := map (fun x => x * dist_factor) audio in
      let distorted := map tanh audio' in
      let distorted' := map (fun y => y / (1 + distortion self * (1/2))) distorted in
      Ok (distorted', self).

(** ** scipy.signal helpers used by the tone control *)

(** One row [[b0, b1, b2, 1, a1, a2]] of a second-order-sections table
    ([sosfilt] insists on the fourth column being one). *)
Record sos_section : Type := mkSos {
  b0 : R; b1 : R; b2 : R; a1 : R; a2 : R
}.

(** The [btype] argument of [signal.butter] together with its critical
    frequencies in Hz. *)
Inductive btype : Type :=
| Low (fc : Z)
| High (fc : Z)
| Band (f1 f2 : Z).

(** Delay memory of one section: [zi[s, 0]] and [zi[s, 1]]. *)
Definition sos_state : Type := (R * R)%type.

(** One sample through one section (direct form II transposed, as in
    [sosfilt]'s inner loop). *)
Definition section_step (c : sos_section) (z : sos_state) (x_cur : R) : R * sos_state :=
  let x_new := b0 c * x_cur + fst z in
  (x_new, (b1 c * x_cur - a1 c * x_new + snd z, b2 c * x_cur - a2 c * x_new)).

(** One sample through the cascade of sections. *)
Fixpoint cascade_step (sos : list sos_section) (zi : list sos_state) (x_cur : R)
  : R * list sos_state :=
  match sos, zi with
  | c :: sos', z :: zi' =>
      let '(x_new, z') := section_step c z x_cur in
      let '(y, zs) := cascade_step sos' zi' x_new in
      (y, z' :: zs)
  | _, _ => (x_cur, [])
  end.

(** The sample loop of [sosfilt], started from delay memory [zi]; returns
    the filtered block and the final delay memory. *)
Fixpoint sosfilt_zi (sos : list sos_section) (zi : list sos_state) (x : list R)
  : list R * list sos_state :=
  match x with
  | [] => ([], zi)
  | x0 :: xs =>
      let '(y, zi') := cascade_step sos zi x0 in
      let '(ys, zf) := sosfilt_zi sos zi' xs in
      (y :: ys, zf)
  end.

(** [signal.sosfilt(sos, x)] without [zi]: the delay memory starts at
    zero and the final memory is discarded. *)
Definition sosfilt (sos : list sos_section) (x : list R) : list R :=
  fst (sosfilt_zi sos (replicate (length sos) (0, 0)) x).

(** Element-wise array arithmetic. *)
Definition vadd (a b : list R) : list R := zip_with Rplus a b.
Definition vsub (a b : list R) : list R := zip_with Rminus a b.
Definition vscale (a : list R) (k : R) : list R := map (fun x => x * k) a.

Definition lift {A : Type} (r : result A) : M A :=
  fun self => match r with Ok a => Ok (a, self) | Raise e => Raise e end.

Section Engine.

(** [signal.butter(N, Wn, btype, fs=fs, output='sos')]: the filter design
    is scipy's; it either returns a table of sections or raises (critical
    frequencies must lie strictly between 0 and fs/2). *)
Variable butter : nat -> btype -> Z -> result (list sos_section).

(** ** Stage: tone control *)

Definition apply_eq (audio : list R) : M (list R) :=
  let* self := get_self in
  let result := audio in
  let* result :=
    (if negb (Reqb (bass self) 0) then
       let bass_gain := 1 + bass self in
       let* sos_bass := lift (butter 2 (Low 100) (sample_rate self)) in
       let bass_signal := sosfilt sos_bass audio in
       ret (vadd result (vscale (vsub bass_signal audio) bass_gain))
     else ret result) in
  let* result :=
    (if negb (Reqb (treble self) 0) then
       let treble_gain := 1 + treble self in
       let* sos_treble := lift (butter 2 (High 3000) (sample_rate self)) in
       let treble_signal := sosfilt sos_treble audio in
       ret (vadd result (vscale (vsub treble_signal audio) treble_gain))
     else ret result) in
  let* result :=
    (if negb (Reqb (mid self) 0) then
       let mid_gain := 1 + mid self in
       let* sos_mid := lift (butter 2 (Band 400 1600) (sample_rate self)) in
       let mid_signal := sosfilt sos_mid audio in
       ret (vadd result (vscale (vscale mid_signal mid_gain) (1/2)))
     else ret result) in
  ret result.

(** ** Stage: reverb *)

(** The body of the sample loop for one input sample; returns
    [output[i]]. *)
Definition reverb_step (x : R) : M R :=
  let* self := get_self in
  let* delayed := lift (np_getitem (reverb_buffer self) (reverb_index self)) in
  let* buf := lift (np_setitem (reverb_buffer self) (reverb_index self)
                               (x + delayed * (3/10))) in
  let* _ := modify (set_reverb_buffer buf) in
  let y := x * (1 - reverb_mix self) + delayed * reverb_mix self in
  let* idx := lift (py_mod (reverb_index self + 1) (reverb_buffer_size self)) in
  let* _ := modify (set_reverb_index idx) in
  ret y.

Fixpoint reverb_loop (audio : list R) : M (list R) :=
  match audio with
  | [] => ret []
  | x :: rest =>
      let* y := reverb_step x in
      let* ys := reverb_loop rest in
      ret (y :: ys)
  end.

Definition apply_reverb (audio : list R) : M (list R) :=
  let* self := get_self in
  if Reqb (reverb_mix self) 0 then ret audio
  else reverb_loop audio.

(** ** The chain *)

Definition process (audio : list R) : M (list R) :=
  let* processed := apply_gain audio in
  let* processed := apply_distortion processed in
  let* processed := apply_eq processed in
  let* processed := apply_reverb processed in
  ret processed.

End Engine.

(** ** Results of a method call *)

Definition value_of {A : Type} (r : result (A * GuitarAmpEffects)) : option A :=
  match r with Ok (a, _) => Some a | Raise _ => None end.

Definition state_of {A : Type} (r : result (A * GuitarAmpEffects)) : option GuitarAmpEffects :=
  match r with Ok (_, s) => Some s | Raise _ => None end.

(** A freshly constructed engine at 100 Hz (delay line of five slots). *)
Definition engine100 : GuitarAmpEffects :=
  mkEffects 100 1 0 0 0 0 0 5 [0; 0; 0; 0; 0] 0.

(** ** Vocabulary of the parameter store contract *)

(** The clamp of the contract, [max(min(value, hi), lo)]. *)
Definition clamp (v lo hi : R) : R := Rmax (Rmin v hi) lo.


(** ** Delay-line invariants *)

(** The write cursor lies inside the delay line. *)
Definition cursor_ok (s : GuitarAmpEffects) : Prop :=
  (0 <= reverb_index s < reverb_buffer_size s)%Z.

(** The buffer has the capacity recorded in [reverb_buffer_size]. *)
Definition buffer_ok (s : GuitarAmpEffects) : Prop :=
  Z.of_nat (length (reverb_buffer s)) = reverb_buffer_size s.

(** The engine after one pass of the reverb loop body on input [x], given
    the delayed sample [d] read at the cursor. *)
Definition reverb_next (x d : R) (s : GuitarAmpEffects) : GuitarAmpEffects :=
  set_reverb_index ((reverb_index s + 1) mod reverb_buffer_size s)%Z
    (set_reverb_buffer
       (<[Z.to_nat (reverb_index s) := x + d * (3/10)]> (reverb_buffer s)) s).

(** ** Vocabulary of the impulse response *)

(** A unit impulse followed by [n] silent samples. *)
Definition impulse (n : nat) : list R := 1 :: replicate n 0.

(** The expected response at sample [t] of a delay line of [N] slots with
    full wet mix: nothing before the first [N] samples have passed, then an
    echo every [N] samples, the k-th of amplitude [0.3 ^ (k - 1)]. *)
Definition echo (N t : nat) : R :=
  if ((1 <=? t) && (t mod N =? 0))%nat then (3/10) ^ (t / N - 1) else 0.

(** The delay line [t] samples after an impulse entered at slot [c]: slot
    [c] carries the circulating echo, every other slot is silent, and the
    cursor is [t] slots past [c]. *)
Definition after_impulse (N c t : nat) (s : GuitarAmpEffects) : Prop :=
  reverb_mix s = 1 /\
  reverb_buffer_size s = Z.of_nat N /\
  reverb_buffer s = <[c := (3/10) ^ ((t - 1) / N)]> (replicate N 0) /\
  reverb_index s = Z.of_nat ((c + t) mod N).

(** ** Concrete engines and filter designs *)

(** A freshly constructed engine at the default 44100 Hz (delay line of
    2205 slots). *)
Definition engine44100 : GuitarAmpEffects :=
  mkEffects 44100 1 0 0 0 0 0 2205 (replicate 2205 0) 0.

(** The same engine after [set_parameters(bass=1.0, mid=1.0, treble=1.0)]. *)
Definition tone_engine : GuitarAmpEffects :=
  set_treble 1 (set_mid 1 (set_bass 1 engine44100)).

(** The three Butterworth designs the tone control requests at 44100 Hz,
    as second-order sections with coefficients rounded to ten significant
    digits: a low-pass at 100 Hz, a high-pass at 3000 Hz, and a band-pass
    over 400..1600 Hz (two sections).  Requests outside this table are
    answered with [ValueError]. *)
Definition butter_44100 (N : nat) (bt : btype) (fs : Z) : result (list sos_section) :=
  match N, bt, fs with
  | 2%nat, Low 100, 44100%Z =>
      Ok [mkSos (5024142299 / 10^14) (10048284599 / 10^14) (5024142299 / 10^14)
                (- 19798515425 / 10^10) (9800525082 / 10^10)]
  | 2%nat, High 3000, 44100%Z =>
      Ok [mkSos (7385387094 / 10^10) (- 14770774188 / 10^10) (7385387094 / 10^10)
                (- 14075053439 / 10^10) (5466494937 / 10^10)]
  | 2%nat, Band 400 1600, 44100%Z =>
      Ok [mkSos (6507137401 / 10^12) (13014274802 / 10^12) (6507137401 / 10^12)
                (- 17962311178 / 10^10) (8330542604 / 10^10);
          mkSos 1 (-2) 1
                (- 19385136885 / 10^10) (9425862553 / 10^10)]
  | _, _, _ => Raise ValueError
  end.

(** At a sample rate of 100 Hz every critical frequency the tone control
    asks for lies at or above half the sample rate, which [signal.butter]
    rejects with [ValueError]. *)
Definition butter_100 (N : nat) (bt : btype) (fs : Z) : result (list sos_section) :=
  Raise ValueError.

(** ** Invariants of a constructed engine *)

(** Every control lies in its declared range. *)
Definition params_ok (s : GuitarAmpEffects) : Prop :=
  1/10 <= gain s <= 5 /\
  0 <= distortion s <= 1 /\
  -1 <= bass s <= 1 /\
  -1 <= mid s <= 1 /\
  -1 <= treble s <= 1 /\
  0 <= reverb_mix s <= 1.

Definition engine_ok (s : GuitarAmpEffects) : Prop :=
  params_ok s /\ cursor_ok s /\ buffer_ok s.

(** The two engines have the same sample rate, controls and capacity. *)
Definition same_controls (s s' : GuitarAmpEffects) : Prop :=
  sample_rate s' = sample_rate s /\
  gain s' = gain s /\ distortion s' = distortion s /\
  bass s' = bass s /\ mid s' = mid s /\ treble s' = treble s /\
  reverb_mix s' = reverb_mix s /\
  reverb_buffer_size s' = reverb_buffer_size s.


(** ** Vocabulary of the distortion stage *)

(** The transfer curve the distortion stage applies to one sample at
    distortion amount [d]. *)
Definition transfer (d x : R) : R :=
  if Reqb d 0 then x else tanh (x * (1 + d * 49)) / (1 + d * (1/2)).

(** ** Vocabulary of the tone control *)

(** Delay memory scaled by [k], and the sum of two delay memories. *)
Definition scale_state (k : R) (z : sos_state) : sos_state := (fst z * k, snd z * k).
Definition add_state (z1 z2 : sos_state) : sos_state := (fst z1 + fst z2, snd z1 + snd z2).

(** A band is ready when it is bypassed or its filter design is
    available. *)
Definition band_ready (control : R) (design : result (list sos_section)) : Prop :=
  control = 0 \/ exists sos, design = Ok sos.

(** ** Vocabulary of the delay line *)

(** The buffer slot under the cursor [i] samples into a call. *)
Definition slot (s : GuitarAmpEffects) (i : nat) : nat :=
  Z.to_nat ((reverb_index s + Z.of_nat i) mod reverb_buffer_size s).

(** The delay buffer of [s] and the buffer [buf'] hold the same samples in
    the slots a block of [n] samples passes over. *)
Definition agree_on (s : GuitarAmpEffects) (buf' : list R) (n : nat) : Prop :=
  forall i : nat, (i < n)%nat -> reverb_buffer s !! slot s i = buf' !! slot s i.

(** ** The amplifier object of [src/amplifier.py] *)

(** A Python dict with string keys whose order of insertion matters. *)
Fixpoint dict_get {V : Type} (d : list (string * V)) (k : string) : option V :=
  match d with
  | [] => None
  | (k', v) :: d' => if String.eqb k k' then Some v else dict_get d' k
  end.

Definition dict_keys {V : Type} (d : list (string * V)) : list string := map fst d.

(** The keyword dict of one preset. *)
Definition preset_dict (g d b m t r : R) : gmap string R :=
  <["gain" := g]> (<["distortion" := d]> (<["bass" := b]> (<["mid" := m]>
    (<["treble" := t]> (<["reverb_mix" := r]> ∅))))).

(** [VirtualAmp]: the effects processor, the preset table and the name of
    the preset loaded last.  The audio engine it also owns is a wrapper of
    the sound device and is left out. *)
Record VirtualAmp : Type := mkAmp {
  effects : GuitarAmpEffects;
  presets : list (string * gmap string R);
  current_preset : string
}.

(** The preset table of [VirtualAmp.__init__]. *)
Definition amp_presets : list (string * gmap string R) :=
  [ ("clean",      preset_dict 1.0 0.0 0.0 0.0 0.0 0.2);
    ("crunch",     preset_dict 2.0 0.3 0.2 0.1 0.1 0.15);
    ("overdrive",  preset_dict 2.5 0.5 0.1 0.3 0.2 0.1);
    ("distortion", preset_dict 3.0 0.7 0.3 0.2 0.3 0.1);
    ("metal",      preset_dict 4.0 0.9 0.4 (-0.2) 0.5 0.05) ].


(** [load_preset]: an unknown name changes nothing (a message is
    printed); a known one is handed to the effects' [set_parameters] and
    becomes the current preset. *)
Definition load_preset (preset_name : string) (amp : VirtualAmp) : result VirtualAmp :=
  match dict_get (presets amp) preset_name with
  | None => Ok amp
  | Some kwargs =>
      match set_parameters kwargs (effects amp) with
      | Ok (_, e) => Ok (mkAmp e (presets amp) preset_name)
      | Raise x => Raise x
      end
  end.


(** The dict [get_current_settings] returns. *)
Record settings : Type := mkSettings {
  st_preset : string;
  st_gain : R;
  st_distortion : R;
  st_bass : R;
  st_mid : R;
  st_treble : R;
  st_reverb_mix : R
}.

Definition get_current_settings (amp : VirtualAmp) : settings :=
  mkSettings (current_preset amp)
    (gain (effects amp)) (distortion (effects amp)) (bass (effects amp))
    (mid (effects amp)) (treble (effects amp)) (reverb_mix (effects amp)).

Definition list_presets (amp : VirtualAmp) : list string := dict_keys (presets amp).


(** ** The sample path of [AudioEngine._audio_callback] *)

(** Lines 54 to 64 of [src/audio_engine.py], between the decoding of the
    input bytes and the encoding of the output bytes: run the processing
    callback if one is set, fall back to the input when the callback
    returned a block of another length, and clip to [-1, 1]. *)
Definition audio_callback_samples (process_callback : option (list R -> M (list R)))
    (audio_data : list R) : M (list R) :=
  let* processed_data :=
    (match process_callback with
     | Some callback => callback audio_data
     | None => ret audio_data
     end) in
  let processed_data :=
    if negb (length processed_data =? length audio_data)%nat then audio_data
    else processed_data in
  let processed_data := map (fun x => np_clip x (-1) 1) processed_data in
  ret processed_data.

(** ** The same code over binary64 floats

    The definitions above compute with exact reals.  Module [F64] embeds
    the same methods over IEEE 754 binary64 values, the numbers the
    program computes with, so that NaN, infinities and rounding can be
    stated.  [np.tanh] and [signal.butter] are library functions and are
    taken as parameters. *)

Module F64.
Section Binary64.

Local Open Scope float_scope.

Record GuitarAmpEffects : Type := mkEffects {
  sample_rate : Z;
  gain : float;
  distortion : float;
  bass : float;
  mid : float;
  treble : float;
  reverb_mix : float;
  reverb_buffer_size : Z;
  reverb_buffer : list float;
  reverb_index : Z
}.

Definition M (A : Type) : Type := GuitarAmpEffects -> result (A * GuitarAmpEffects).

Definition ret {A : Type} (a : A) : M A := fun self => Ok (a, self).

Definition bind {A B : Type} (m : M A) (k : A -> M B) : M B :=
  fun self =>
    match m self with
    | Ok (a, self') => k a self'
    | Raise e => Raise e
    end.

Definition get_self : M GuitarAmpEffects := fun self => Ok (self, self).

Definition modify (f : GuitarAmpEffects -> GuitarAmpEffects) : M unit :=
  fun self => Ok (tt, f self).

Definition lift {A : Type} (r : result A) : M A :=
  fun self => match r with Ok a => Ok (a, self) | Raise e => Raise e end.

Local Notation "'let64' x := m 'in' k" := (bind m (fun x => k))
  (at level 10, x name, m at level 100, k at level 200).

(** [np.maximum(a, b)] and [np.minimum(a, b)]: the first argument when it
    is NaN or wins the comparison, the second one otherwise (so a NaN in
    either place comes out). *)
Definition np_maximum (a b : float) : float :=
  if is_nan a || (b <=? a) then a else b.

Definition np_minimum (a b : float) : float :=
  if is_nan a || (a <=? b) then a else b.

(** [np.clip(v, lo, hi)] is [minimum(hi, maximum(v, lo))]. *)
Definition np_clip (v lo hi : float) : float := np_minimum hi (np_maximum v lo).

Definition np_getitem (a : list float) (i : Z) : result float :=
  match np_index (length a) i with
  | Some n => match a !! n with Some v => Ok v | None => Raise IndexError end
  | None => Raise IndexError
  end.

Definition np_setitem (a : list float) (i : Z) (v : float) : result (list float) :=
  match np_index (length a) i with
  | Some n => Ok (<[n := v]> a)
  | None => Raise IndexError
  end.

Definition set_gain (v : float) (s : GuitarAmpEffects) : GuitarAmpEffects :=
  mkEffects (sample_rate s) v (distortion s) (bass s) (mid s) (treble s)
            (reverb_mix s) (reverb_buffer_size s) (reverb_buffer s) (reverb_index s).
Definition set_distortion (v : float) (s : GuitarAmpEffects) : GuitarAmpEffects :=
  mkEffects (sample_rate s) (gain s) v (bass s) (mid s) (treble s)
            (reverb_mix s) (reverb_buffer_size s) (reverb_buffer s) (reverb_index s).
Definition set_bass (v : float) (s : GuitarAmpEffects) : GuitarAmpEffects :=
  mkEffects (sample_rate s) (gain s) (distortion s) v (mid s) (treble s)
            (reverb_mix s) (reverb_buffer_size s) (reverb_buffer s) (reverb_index s).
Definition set_mid (v : float) (s : GuitarAmpEffects) : GuitarAmpEffects :=
  mkEffects (sample_rate s) (gain s) (distortion s) (bass s) v (treble s)
            (reverb_mix s) (reverb_buffer_size s) (reverb_buffer s) (reverb_index s).
Definition set_treble (v : float) (s : GuitarAmpEffects) : GuitarAmpEffects :=
  mkEffects (sample_rate s) (gain s) (distortion s) (bass s) (mid s) v
            (reverb_mix s) (reverb_buffer_size s) (reverb_buffer s) (reverb_index s).
Definition set_reverb_mix (v : float) (s : GuitarAmpEffects) : GuitarAmpEffects :=
  mkEffects (sample_rate s) (gain s) (distortion s) (bass s) (mid s) (treble s)
            v (reverb_buffer_size s) (reverb_buffer s) (reverb_index s).
Definition set_reverb_buffer (v : list float) (s : GuitarAmpEffects) : GuitarAmpEffects :=
  mkEffects (sample_rate s) (gain s) (distortion s) (bass s) (mid s) (treble s)
            (reverb_mix s) (reverb_buffer_size s) v (reverb_index s).
Definition set_reverb_index (v : Z) (s : GuitarAmpEffects) : GuitarAmpEffects :=
  mkEffects (sample_rate s) (gain s) (distortion s) (bass s) (mid s) (treble s)
            (reverb_mix s) (reverb_buffer_size s) (reverb_buffer s) v.

Definition clip_field (kwargs : gmap string float) (name : string) (lo hi : float)
    (setter : float -> GuitarAmpEffects -> GuitarAmpEffects)
    (s : GuitarAmpEffects) : GuitarAmpEffects :=
  match kwargs !! name with
  | Some v => setter (np_clip v lo hi) s
  | None => s
  end.

Definition set_parameters (kwargs : gmap string float) : M unit :=
  fun self =>
    let s1 := clip_field kwargs "gain" 0.1 5 set_gain self in
    let s2 := clip_field kwargs "distortion" 0 1 set_distortion s1 in
    let s3 := clip_field kwargs "bass" (-1) 1 set_bass s2 in
    let s4 := clip_field kwargs "mid" (-1) 1 set_mid s3 in
    let s5 := clip_field kwargs "treble" (-1) 1 set_treble s4 in
    let s6 := clip_field kwargs "reverb_mix" 0 1 set_reverb_mix s5 in
    Ok (tt, s6).

Definition apply_gain (audio : list float) : M (list float) :=
  fun self => Ok (map (fun x => x * gain self) audio, self).

Variable np_tanh : float -> float.

Definition apply_distortion (audio : list float) : M (list float) :=
  fun self =>
    if distortion self =? 0 then Ok (audio, self)
    else
      let dist_factor := 1 + distortion self * 49 in
      let audio' := map (fun x => x * dist_factor) audio in
      let distorted := map np_tanh audio' in
      let distorted' := map (fun y => y / (1 + distortion self * 0.5)) distorted in
      Ok (distorted', self).

Record sos_section : Type := mkSos {
  b0 : float; b1 : float; b2 : float; a1 : float; a2 : float
}.

Definition sos_state : Type := (float * float)%type.

Definition section_step (c : sos_section) (z : sos_state) (x_cur : float)
  : float * sos_state :=
  let x_new := b0 c * x_cur + fst z in
  (x_new, (b1 c * x_cur - a1 c * x_new + snd z, b2 c * x_cur - a2 c * x_new)).

Fixpoint cascade_step (sos : list sos_section) (zi : list sos_state) (x_cur : float)
  : float * list sos_state :=
  match sos, zi with
  | c :: sos', z :: zi' =>
      let '(x_new, z') := section_step c z x_cur in
      let '(y, zs) := cascade_step sos' zi' x_new in
      (y, z' :: zs)
  | _, _ => (x_cur, [])
  end.

Fixpoint sosfilt_zi (sos : list sos_section) (zi : list sos_state) (x : list float)
  : list float * list sos_state :=
  match x with
  | [] => ([], zi)
  | x0 :: xs =>
      let '(y, zi') := cascade_step sos zi x0 in
      let '(ys, zf) := sosfilt_zi sos zi' xs in
      (y :: ys, zf)
  end.

Definition sosfilt (sos : list sos_section) (x : list float) : list float :=
  fst (sosfilt_zi sos (replicate (length sos) (0, 0)) x).

Definition vadd (a b : list float) : list float := zip_with add a b.
Definition vsub (a b : list float) : list float := zip_with sub a b.
Definition vscale (a : list float) (k : float) : list float := map (fun x => x * k) a.

Variable butter : nat -> btype -> Z -> result (list sos_section).

Definition apply_eq (audio : list float) : M (list float) :=
  let64 self := get_self in
  let result := audio in
  let64 result :=
    (if negb (bass self =? 0) then
       let bass_gain := 1 + bass self in
       let64 sos_bass := lift (butter 2 (Low 100) (sample_rate self)) in
       let bass_signal := sosfilt sos_bass audio in
       ret (vadd result (vscale (vsub bass_signal audio) bass_gain))
     else ret result) in
  let64 result :=
    (if negb (treble self =? 0) then
       let treble_gain := 1 + treble self in
       let64 sos_treble := lift (butter 2 (High 3000) (sample_rate self)) in
       let treble_signal := sosfilt sos_treble audio in
       ret (vadd result (vscale (vsub treble_signal audio) treble_gain))
     else ret result) in
  let64 result :=
    (if negb (mid self =? 0) then
       let mid_gain := 1 + mid self in
       let64 sos_mid := lift (butter 2 (Band 400 1600) (sample_rate self)) in
       let mid_signal := sosfilt sos_mid audio in
       ret (vadd result (vscale (vscale mid_signal mid_gain) 0.5))
     else ret result) in
  ret result.

Definition reverb_step (x : float) : M float :=
  let64 self := get_self in
  let64 delayed := lift (np_getitem (reverb_buffer self) (reverb_index self)) in
  let64 buf := lift (np_setitem (reverb_buffer self) (reverb_index self)
                                (x + delayed * 0.3)) in
  let64 _ := modify (set_reverb_buffer buf) in
  let y := x * (1 - reverb_mix self) + delayed * reverb_mix self in
  let64 idx := lift (py_mod (reverb_index self + 1) (reverb_buffer_size self)) in
  let64 _ := modify (set_reverb_index idx) in
  ret y.

Fixpoint reverb_loop (audio : list float) : M (list float) :=
  match audio with
  | [] => ret []
  | x :: rest =>
      let64 y := reverb_step x in
      let64 ys := reverb_loop rest in
      ret (y :: ys)
  end.

Definition apply_reverb (audio : list float) : M (list float) :=
  let64 self := get_self in
  if reverb_mix self =? 0 then ret audio
  else reverb_loop audio.

Definition process (audio : list float) : M (list float) :=
  let64 processed := apply_gain audio in
  let64 processed := apply_distortion processed in
  let64 processed := apply_eq processed in
  let64 processed := apply_reverb processed in
  ret processed.

(** Lines 54 to 64 of [src/audio_engine.py] over floats. *)
Definition audio_callback_samples (process_callback : option (list float -> M (list float)))
    (audio_data : list float) : M (list float) :=
  let64 processed_data :=
    (match process_callback with
     | Some callback => callback audio_data
     | None => ret audio_data
     end) in
  let processed_data :=
    if negb (length processed_data =? length audio_data)%nat then audio_data
    else processed_data in
  let processed_data := map (fun x => np_clip x (-1) 1) processed_data in
  ret processed_data.

(** [lo <= x <= hi]; false for a NaN. *)
Definition in_range (lo hi x : float) : bool := (lo <=? x) && (x <=? hi).

(** Every control lies in its declared range. *)
Definition params_ok (s : GuitarAmpEffects) : bool :=
  in_range 0.1 5 (gain s) && in_range 0 1 (distortion s) &&
  in_range (-1) 1 (bass s) && in_range (-1) 1 (mid s) &&
  in_range (-1) 1 (treble s) && in_range 0 1 (reverb_mix s).

(** The delay line: cursor inside the buffer, buffer of the recorded
    capacity, the engine after one pass of the reverb loop body, the slot
    under the cursor [i] samples into a call, and two buffers that hold
    the same samples in the slots a block of [n] samples passes over. *)
Definition cursor_ok (s : GuitarAmpEffects) : Prop :=
  (0 <= reverb_index s < reverb_buffer_size s)%Z.

Definition buffer_ok (s : GuitarAmpEffects) : Prop :=
  Z.of_nat (length (reverb_buffer s)) = reverb_buffer_size s.

Definition reverb_next (x d : float) (s : GuitarAmpEffects) : GuitarAmpEffects :=
  set_reverb_index ((reverb_index s + 1) mod reverb_buffer_size s)%Z
    (set_reverb_buffer
       (<[Z.to_nat (reverb_index s) := x + d * 0.3]> (reverb_buffer s)) s).

Definition slot (s : GuitarAmpEffects) (i : nat) : nat :=
  Z.to_nat ((reverb_index s + Z.of_nat i) mod reverb_buffer_size s).

Definition agree_on (s : GuitarAmpEffects) (buf' : list float) (n : nat) : Prop :=
  forall i : nat, (i < n)%nat -> reverb_buffer s !! slot s i = buf' !! slot s i.


Definition value_of {A : Type} (r : result (A * GuitarAmpEffects)) : option A :=
  match r with Ok (a, _) => Some a | Raise _ => None end.

Definition state_of {A : Type} (r : result (A * GuitarAmpEffects))
  : option GuitarAmpEffects :=
  match r with Ok (_, s) => Some s | Raise _ => None end.

End Binary64.

(** The engine [GuitarAmpEffects(44100)] builds. *)
Definition engine44100 : GuitarAmpEffects :=
  mkEffects 44100 1 0 0 0 0 0 2205 (replicate 2205 0%float) 0.

(** The default engine at 44100 Hz after [set_parameters(gain=5.0)]. *)
Definition loud_engine : GuitarAmpEffects :=
  mkEffects 44100 5 0 0 0 0 0 2205 (replicate 2205 0%float) 0.

(** 1024 samples of 2^1023 (about 8.99e307), a finite binary64 value. *)
Definition loud_block : list float := replicate 1024 0x1p1023%float.


End F64.

(** * Basic facts *)

Lemma Reqb_true (x y : R) : Reqb x y = true <-> x = y.
Proof. unfold Reqb. destruct (Req_dec_T x y); split; intros; congruence. Qed.

Lemma Reqb_false (x y : R) : Reqb x y = false <-> x <> y.
Proof. unfold Reqb. destruct (Req_dec_T x y); split; intros; congruence. Qed.

Lemma Reqb_refl (x : R) : Reqb x x = true.
Proof. apply Reqb_true. reflexivity. Qed.

(** * Gain stage *)

(** C9. The gain stage multiplies every sample by the stored gain, returns
    a block of the same length, leaves the engine untouched, and two
    engines that agree on [gain] give the same block whatever the rest of
    their state is. *)
Theorem apply_gain_linear (s s' : GuitarAmpEffects) (B : list R)
    (Hg : gain s = gain s') :
  (exists out, apply_gain B s = Ok (out, s) /\
     length out = length B /\
     forall i : nat, out !! i = (fun x => x * gain s) <$> (B !! i)) /\
  value_of (apply_gain B s') = value_of (apply_gain B s).
Proof.
  split.
  - exists (map (fun x => x * gain s) B). split; [reflexivity|]. split.
    + apply length_map.
    + intros i. apply list_lookup_fmap.
  - unfold apply_gain; simpl. rewrite Hg. reflexivity.
Qed.

Lemma apply_gain_linear_witness :
  value_of (apply_gain [1; 2] (set_bass 1 (set_gain 2 engine100)))
  = value_of (apply_gain [1; 2] (set_gain 2 engine100)).
Proof.
  exact (proj2 (apply_gain_linear (set_gain 2 engine100)
                  (set_bass 1 (set_gain 2 engine100)) [1; 2] eq_refl)).
Defined.

(** * Distortion stage *)



(** What [apply_distortion] returns when the bypass is not taken. *)
Lemma apply_distortion_active (s : GuitarAmpEffects) (B : list R) :
  distortion s <> 0 ->
  apply_distortion B s =
    Ok (map (fun x => tanh (x * (1 + distortion s * 49)) / (1 + distortion s * (1/2))) B, s).
Proof.
  intros Hd. unfold apply_distortion.
  apply Reqb_false in Hd. rewrite Hd. cbv zeta.
  rewrite !map_map. reflexivity.
Qed.

Lemma apply_distortion_bypass (s : GuitarAmpEffects) (B : list R) :
  distortion s = 0 -> apply_distortion B s = Ok (B, s).
Proof.
  intros Hd. unfold apply_distortion.
  apply Reqb_true in Hd. rewrite Hd. reflexivity.
Qed.




(** * Identity bypass *)

Section Bypass.

Variable butter : nat -> btype -> Z -> result (list sos_section).

Lemma apply_reverb_bypass (s : GuitarAmpEffects) (B : list R) :
  reverb_mix s = 0 -> apply_reverb B s = Ok (B, s).
Proof.
  intros Hm. unfold apply_reverb, bind, get_self.
  apply Reqb_true in Hm. rewrite Hm. reflexivity.
Qed.

Lemma apply_eq_bypass (s : GuitarAmpEffects) (B : list R) :
  bass s = 0 -> mid s = 0 -> treble s = 0 -> apply_eq butter B s = Ok (B, s).
Proof.
  intros Hb Hm Ht. unfold apply_eq, bind, get_self.
  apply Reqb_true in Hb, Hm, Ht. rewrite Hb, Hm, Ht. reflexivity.
Qed.

(** C3. Each stage hands back its input block, and leaves the engine as
    it was, when its controlling parameter is exactly zero: distortion at
    0, reverb mix at 0, and the three tone bands all at 0. *)
Theorem identity_bypass (s : GuitarAmpEffects) (B : list R) :
  (distortion s = 0 -> apply_distortion B s = Ok (B, s)) /\
  (reverb_mix s = 0 -> apply_reverb B s = Ok (B, s)) /\
  (bass s = 0 -> mid s = 0 -> treble s = 0 -> apply_eq butter B s = Ok (B, s)).
Proof.
  split; [|split].
  - apply apply_distortion_bypass.
  - apply apply_reverb_bypass.
  - apply apply_eq_bypass.
Qed.

End Bypass.

Lemma identity_bypass_witness :
  apply_distortion [1; 2] engine100 = Ok ([1; 2], engine100) /\
  apply_reverb [1; 2] engine100 = Ok ([1; 2], engine100) /\
  apply_eq butter_100 [1; 2] engine100 = Ok ([1; 2], engine100).
Proof.
  destruct (identity_bypass butter_100 engine100 [1; 2])
    as (Hd & Hr & He).
  split; [|split].
  - apply Hd. reflexivity.
  - apply Hr. reflexivity.
  - apply He; reflexivity.
Defined.

(** * Parameter store *)


Lemma clamp_in_range (v lo hi : R) : lo <= hi -> lo <= clamp v lo hi <= hi.
Proof.
  intros H. unfold clamp, Rmin, Rmax.
  repeat destruct (Rle_dec _ _); lra.
Qed.


(** * The chain *)

Section Chain.

Variable butter : nat -> btype -> Z -> result (list sos_section).

(** The tone control reads the engine and never writes it: a call is a
    pure outcome lifted into the method monad. *)
Lemma apply_eq_pure (s : GuitarAmpEffects) (B : list R) :
  exists r : result (list R), apply_eq butter B s = lift r s.
Proof.
  unfold apply_eq, bind, get_self, lift, ret.
  destruct (negb (Reqb (bass s) 0));
    [destruct (butter 2 (Low 100) (sample_rate s)) as [sb|e];
       [|exists (Raise e); reflexivity]|];
    (destruct (negb (Reqb (treble s) 0));
       [destruct (butter 2 (High 3000) (sample_rate s)) as [st|e];
          [|exists (Raise e); reflexivity]|]);
    (destruct (negb (Reqb (mid s) 0));
       [destruct (butter 2 (Band 400 1600) (sample_rate s)) as [sm|e];
          [|exists (Raise e); reflexivity]|]);
    (eexists (Ok _); reflexivity).
Qed.

Lemma apply_eq_frame (s s' : GuitarAmpEffects) (B out : list R) :
  apply_eq butter B s = Ok (out, s') -> s' = s.
Proof.
  destruct (apply_eq_pure s B) as [r ->]. unfold lift.
  destruct r; intros H; inversion H; reflexivity.
Qed.

(** The chain, stage by stage. *)
Lemma process_stages (s : GuitarAmpEffects) (B : list R) :
  exists g d : list R,
    apply_gain B s = Ok (g, s) /\
    apply_distortion g s = Ok (d, s) /\
    process butter B s =
      match apply_eq butter d s with
      | Ok (e, _) => apply_reverb e s
      | Raise x => Raise x
      end.
Proof.
  exists (map (fun x => x * gain s) B).
  destruct (Req_dec_T (distortion s) 0) as [Hd|Hd].
  - eexists. split; [reflexivity|].
    split; [apply apply_distortion_bypass; exact Hd|].
    unfold process, bind at 1 2. simpl.
    rewrite (apply_distortion_bypass _ _ Hd).
    unfold bind at 1.
    destruct (apply_eq butter _ s) as [[e s1]|x] eqn:He; [|reflexivity].
    apply apply_eq_frame in He. subst s1.
    unfold bind, ret. destruct (apply_reverb e s) as [[? ?]|?]; reflexivity.
  - eexists. split; [reflexivity|].
    split; [apply apply_distortion_active; exact Hd|].
    unfold process, bind at 1 2. simpl.
    rewrite (apply_distortion_active _ _ Hd).
    unfold bind at 1.
    destruct (apply_eq butter _ s) as [[e s1]|x] eqn:He; [|reflexivity].
    apply apply_eq_frame in He. subst s1.
    unfold bind, ret. destruct (apply_reverb e s) as [[? ?]|?]; reflexivity.
Qed.

(** C7. [process] is the composition reverb after tone control after
    distortion after gain: the gain stage's block feeds the distortion
    stage, its block feeds the tone control, and the tone control's block
    feeds the reverb; none of the first three stages changes the engine,
    and an exception of the tone control is the exception of the chain. *)
Theorem process_pipeline (s : GuitarAmpEffects) (B : list R) :
  exists g d : list R,
    apply_gain B s = Ok (g, s) /\
    apply_distortion g s = Ok (d, s) /\
    process butter B s =
      match apply_eq butter d s with
      | Ok (e, _) => apply_reverb e s
      | Raise x => Raise x
      end.
Proof. exact (process_stages s B). Qed.

End Chain.

(** * Reverb stage: cursor and delay-line frame *)

Lemma np_index_in_range (len : nat) (i : Z) :
  (0 <= i < Z.of_nat len)%Z -> np_index len i = Some (Z.to_nat i).
Proof.
  intros H. unfold np_index.
  replace (0 <=? i)%Z with true by (symmetry; apply Z.leb_le; lia).
  replace (i <? Z.of_nat len)%Z with true by (symmetry; apply Z.ltb_lt; lia).
  reflexivity.
Qed.

(** One pass of the loop body on a well-formed delay line. *)
Lemma reverb_step_ok (s : GuitarAmpEffects) (x : R) :
  cursor_ok s -> buffer_ok s ->
  exists d, reverb_buffer s !! Z.to_nat (reverb_index s) = Some d /\
    reverb_step x s
    = Ok (x * (1 - reverb_mix s) + d * reverb_mix s, reverb_next x d s).
Proof.
  intros Hc Hb. unfold cursor_ok, buffer_ok in *.
  destruct (lookup_lt_is_Some_2 (reverb_buffer s) (Z.to_nat (reverb_index s)))
    as [d Hd]; [lia|].
  exists d. split; [exact Hd|].
  unfold reverb_step, bind, get_self, lift, np_getitem, np_setitem, py_mod, modify, ret.
  rewrite np_index_in_range by lia. rewrite Hd.
  replace (reverb_buffer_size s =? 0)%Z with false by (symmetry; apply Z.eqb_neq; lia).
  reflexivity.
Qed.

(** Whatever the buffer, a pass that returns has moved the cursor to
    [(index + 1) mod size] with a non-zero size, and touched nothing but
    the buffer and the cursor. *)
Lemma reverb_step_inv (s s' : GuitarAmpEffects) (x y : R) :
  reverb_step x s = Ok (y, s') ->
  reverb_buffer_size s <> 0%Z /\
  reverb_index s' = ((reverb_index s + 1) mod reverb_buffer_size s)%Z /\
  reverb_buffer_size s' = reverb_buffer_size s /\
  reverb_mix s' = reverb_mix s.
Proof.
  unfold reverb_step, bind, get_self, lift, modify, ret.
  destruct (np_getitem _ _) as [d|e]; [|discriminate].
  destruct (np_setitem _ _ _) as [buf|e]; [|discriminate].
  unfold py_mod. destruct (Z.eqb_spec (reverb_buffer_size s) 0) as [E|E]; [discriminate|].
  intros H. inversion H; subst. simpl. auto.
Qed.

Lemma reverb_next_ok (s : GuitarAmpEffects) (x d : R) :
  cursor_ok s -> buffer_ok s ->
  cursor_ok (reverb_next x d s) /\ buffer_ok (reverb_next x d s).
Proof.
  unfold cursor_ok, buffer_ok, reverb_next. simpl. intros Hc Hb. split.
  - apply Z.mod_pos_bound. lia.
  - rewrite length_insert. exact Hb.
Qed.

(** The loop runs to completion on a well-formed delay line. *)
Lemma reverb_loop_total (B : list R) : forall s : GuitarAmpEffects,
  cursor_ok s -> buffer_ok s ->
  exists out s', reverb_loop B s = Ok (out, s') /\
    length out = length B /\
    cursor_ok s' /\ buffer_ok s' /\
    reverb_index s'
    = ((reverb_index s + Z.of_nat (length B)) mod reverb_buffer_size s)%Z.
Proof.
  induction B as [|x rest IH]; intros s Hc Hb.
  - exists [], s. simpl. unfold ret. repeat split; try assumption.
    + apply Hc.
    + apply Hc.
    + rewrite Z.add_0_r. symmetry. apply Z.mod_small. exact Hc.
  - destruct (reverb_step_ok s x Hc Hb) as (d & _ & Hstep).
    destruct (reverb_next_ok s x d Hc Hb) as [Hc' Hb'].
    destruct (IH _ Hc' Hb') as (out & s' & Hloop & Hlen & Hc'' & Hb'' & Hidx).
    exists ((x * (1 - reverb_mix s) + d * reverb_mix s) :: out), s'.
    split.
    { simpl. unfold bind at 1. rewrite Hstep.
      unfold bind at 1. rewrite Hloop. reflexivity. }
    split; [simpl; congruence|].
    split; [exact Hc''|]. split; [exact Hb''|].
    rewrite Hidx. unfold reverb_next. simpl.
    rewrite Zplus_mod_idemp_l. f_equal. lia.
Qed.

(** A loop that returns leaves the cursor inside the delay line. *)
Lemma reverb_loop_cursor (B : list R) : forall (s s' : GuitarAmpEffects) (out : list R),
  cursor_ok s -> reverb_loop B s = Ok (out, s') -> cursor_ok s'.
Proof.
  induction B as [|x rest IH]; intros s s' out Hc.
  - simpl. unfold ret. intros H. inversion H; subst. exact Hc.
  - simpl. unfold bind at 1.
    destruct (reverb_step x s) as [[y s1]|e] eqn:Hstep; [|discriminate].
    unfold bind at 1.
    destruct (reverb_loop rest s1) as [[ys s2]|e] eqn:Hloop; [|discriminate].
    unfold ret. intros H. inversion H; subst.
    apply reverb_step_inv in Hstep as (Hn & Hi & Hs & _).
    apply (IH s1 s' ys); [|exact Hloop].
    unfold cursor_ok in *. rewrite Hi, Hs. apply Z.mod_pos_bound. lia.
Qed.

Lemma apply_reverb_active (s : GuitarAmpEffects) (B : list R) :
  reverb_mix s <> 0 -> apply_reverb B s = reverb_loop B s.
Proof.
  intros Hm. unfold apply_reverb, bind, get_self.
  apply Reqb_false in Hm. rewrite Hm. reflexivity.
Qed.

(** C10. With a reverb mix of zero the stage returns its input and the
    whole engine, delay buffer and cursor included, is untouched.  With a
    non-zero mix and the cursor inside the delay line, every call that
    returns leaves the cursor inside the delay line, and on a buffer of the
    recorded capacity the call does return, one output sample per input
    sample, with the cursor advanced by the block length modulo the
    capacity. *)
Theorem reverb_bypass_and_cursor (s : GuitarAmpEffects) (B : list R) :
  (reverb_mix s = 0 -> apply_reverb B s = Ok (B, s)) /\
  (reverb_mix s <> 0 -> cursor_ok s ->
     (forall out s', apply_reverb B s = Ok (out, s') -> cursor_ok s') /\
     (buffer_ok s ->
        exists out s', apply_reverb B s = Ok (out, s') /\
          length out = length B /\
          cursor_ok s' /\ buffer_ok s' /\
          reverb_index s'
          = ((reverb_index s + Z.of_nat (length B)) mod reverb_buffer_size s)%Z)).
Proof.
  split.
  - apply apply_reverb_bypass.
  - intros Hm Hc. rewrite (apply_reverb_active s B Hm). split.
    + intros out s'. apply reverb_loop_cursor. exact Hc.
    + intros Hb. apply reverb_loop_total; assumption.
Qed.
Lemma reverb_bypass_and_cursor_witness :
  apply_reverb [1; 2] engine100 = Ok ([1; 2], engine100) /\
  exists out s',
    apply_reverb [1; 2] (set_reverb_mix (1/2) engine100) = Ok (out, s') /\
    length out = 2%nat /\
    cursor_ok s' /\ buffer_ok s' /\
    reverb_index s' = ((0 + 2) mod 5)%Z.
Proof.
  split.
  - apply (proj1 (reverb_bypass_and_cursor engine100 [1; 2])). reflexivity.
  - destruct (reverb_bypass_and_cursor (set_reverb_mix (1/2) engine100) [1; 2])
      as [_ H].
    destruct H as [_ H].
    + simpl. lra.
    + unfold cursor_ok. simpl. lia.
    + apply H. reflexivity.
Defined.

(** * Reverb stage: impulse response *)

Lemma mod_shift (c t N : nat) :
  (c < N -> ((c + t) mod N = c <-> t mod N = 0))%nat.
Proof.
  intros H.
  pose proof (Nat.div_mod_eq t N) as Et.
  pose proof (Nat.mod_upper_bound t N ltac:(lia)) as Hr.
  set (q := (t / N)%nat) in *. set (r := (t mod N)%nat) in *.
  split; intros E.
  - destruct (Nat.lt_ge_cases (c + r) N) as [L|L].
    + assert (X : ((c + t) mod N = c + r)%nat).
      { symmetry. apply (Nat.mod_unique _ _ q); [exact L | lia]. }
      lia.
    + assert (X : ((c + t) mod N = c + r - N)%nat).
      { symmetry. apply (Nat.mod_unique _ _ (S q)); [lia | nia]. }
      lia.
  - symmetry. apply (Nat.mod_unique _ _ q); [exact H | lia].
Qed.

Lemma div_pred_multiple (t N : nat) :
  (0 < N -> 1 <= t -> t mod N = 0 -> t / N = S ((t - 1) / N))%nat.
Proof.
  intros HN Ht E.
  pose proof (Nat.div_mod_eq t N) as Et. rewrite E in Et.
  set (q := (t / N)%nat) in *.
  assert (Hq : (1 <= q)%nat) by nia.
  assert (X : ((t - 1) / N = q - 1)%nat).
  { symmetry. apply (Nat.div_unique _ _ _ (N - 1)); [lia | nia]. }
  lia.
Qed.

Lemma div_pred_other (t N : nat) :
  (0 < N -> t mod N <> 0 -> (t - 1) / N = t / N)%nat.
Proof.
  intros HN E.
  pose proof (Nat.div_mod_eq t N) as Et.
  pose proof (Nat.mod_upper_bound t N ltac:(lia)) as Hr.
  set (q := (t / N)%nat) in *. set (r := (t mod N)%nat) in *.
  symmetry. apply (Nat.div_unique _ _ _ (r - 1)); [lia | nia].
Qed.

Lemma cursor_advance (c t N : nat) :
  (0 < N)%nat ->
  ((Z.of_nat ((c + t) mod N) + 1) mod Z.of_nat N)%Z = Z.of_nat ((c + S t) mod N).
Proof.
  intros HN.
  rewrite Nat2Z.inj_mod. rewrite Nat2Z.inj_mod.
  rewrite Zplus_mod_idemp_l. f_equal. lia.
Qed.

Lemma after_impulse_ok (N c t : nat) (s : GuitarAmpEffects) :
  (0 < N)%nat -> after_impulse N c t s -> cursor_ok s /\ buffer_ok s.
Proof.
  intros HN (Hm & Hs & Hb & Hi). unfold cursor_ok, buffer_ok.
  rewrite Hs, Hi, Hb, length_insert, length_replicate.
  pose proof (Nat.mod_upper_bound (c + t) N ltac:(lia)). lia.
Qed.

(** One silent sample through the delay line, [t >= 1] samples after the
    impulse. *)
Lemma silent_step (N c t : nat) (s : GuitarAmpEffects) :
  (0 < N)%nat -> (c < N)%nat -> (1 <= t)%nat -> after_impulse N c t s ->
  exists s', reverb_step 0 s = Ok (echo N t, s') /\ after_impulse N c (S t) s'.
Proof.
  intros HN Hc Ht Hinv.
  destruct (after_impulse_ok N c t s HN Hinv) as [Hcur Hbuf].
  destruct Hinv as (Hm & Hs & Hb & Hi).
  destruct (reverb_step_ok s 0 Hcur Hbuf) as (d & Hd & Hstep).
  rewrite Hi, Nat2Z.id, Hb in Hd.
  exists (reverb_next 0 d s).
  assert (Ht1 : (1 <=? t)%nat = true) by (apply Nat.leb_le; lia).
  destruct (decide ((c + t) mod N = c)%nat) as [E|E].
  - (* the cursor is back on the slot that carries the echo *)
    rewrite E in Hd.
    rewrite list_lookup_insert_eq in Hd by (rewrite length_replicate; lia).
    inversion Hd; subst d; clear Hd.
    assert (Et : (t mod N = 0)%nat) by (apply (mod_shift c t N Hc); exact E).
    pose proof (div_pred_multiple t N HN Ht Et) as Eq.
    split.
    + rewrite Hstep. do 2 f_equal. unfold echo.
      rewrite Ht1, Et, Hm, Eq. cbn [andb Nat.eqb].
      replace (S ((t - 1) / N) - 1)%nat with ((t - 1) / N)%nat by lia. lra.
    + unfold after_impulse, reverb_next. simpl.
      split; [exact Hm|]. split; [exact Hs|]. split.
      * rewrite Hi, Nat2Z.id, E, Hb, list_insert_insert_eq. f_equal.
        rewrite Nat.sub_0_r, Eq, <- tech_pow_Rmult. lra.
      * rewrite Hi, Hs. apply cursor_advance. exact HN.
  - (* the cursor is on a silent slot *)
    pose proof (Nat.mod_upper_bound (c + t) N ltac:(lia)) as Hj.
    rewrite list_lookup_insert_ne in Hd by congruence.
    rewrite lookup_replicate in Hd. destruct Hd as [Hd _]. subst d.
    assert (Et : (t mod N <> 0)%nat).
    { intros Et. apply E. apply (mod_shift c t N Hc). exact Et. }
    split.
    + rewrite Hstep. do 2 f_equal. unfold echo.
      apply Nat.eqb_neq in Et. rewrite Et, andb_false_r. lra.
    + unfold after_impulse, reverb_next. simpl.
      split; [exact Hm|]. split; [exact Hs|]. split.
      * rewrite Hi, Nat2Z.id, Hb.
        replace (0 + 0 * (3 / 10)) with 0 by lra.
        rewrite list_insert_id.
        -- rewrite Nat.sub_0_r, (div_pred_other t N HN Et). reflexivity.
        -- rewrite list_lookup_insert_ne by congruence.
           apply lookup_replicate. split; [reflexivity | exact Hj].
      * rewrite Hi, Hs. apply cursor_advance. exact HN.
Qed.

(** The silent tail of the block. *)
Lemma silent_tail (N c : nat) (HN : (0 < N)%nat) (Hc : (c < N)%nat) (m : nat) :
  forall (t : nat) (s : GuitarAmpEffects),
  (1 <= t)%nat -> after_impulse N c t s ->
  exists out s', reverb_loop (replicate m 0) s = Ok (out, s') /\
    length out = m /\
    forall i : nat, (i < m)%nat -> out !! i = Some (echo N (t + i)).
Proof.
  induction m as [|m IH]; intros t s Ht Hinv.
  - exists [], s. split; [reflexivity|]. split; [reflexivity|]. intros i Hi. lia.
  - destruct (silent_step N c t s HN Hc Ht Hinv) as (s1 & Hstep & Hinv1).
    destruct (IH (S t) s1 ltac:(lia) Hinv1) as (out & s' & Hloop & Hlen & Hout).
    exists (echo N t :: out), s'. split.
    { simpl. unfold bind at 1. rewrite Hstep.
      unfold bind at 1. rewrite Hloop. reflexivity. }
    split; [simpl; congruence|].
    intros [|i] Hi.
    + rewrite Nat.add_0_r. reflexivity.
    + simpl. rewrite Hout by lia. do 2 f_equal. lia.
Qed.

(** The whole response: impulse, then silence, on a silent delay line
    with full wet mix. *)
Lemma impulse_response (N n : nat) (s : GuitarAmpEffects) :
  (0 < N)%nat -> reverb_buffer_size s = Z.of_nat N ->
  reverb_buffer s = replicate N 0 -> cursor_ok s -> reverb_mix s = 1 ->
  exists out s', apply_reverb (impulse n) s = Ok (out, s') /\
    length out = S n /\
    forall t : nat, (t <= n)%nat -> out !! t = Some (echo N t).
Proof.
  intros HN Hs Hb Hcur Hm.
  rewrite apply_reverb_active by lra.
  assert (Hbuf : buffer_ok s).
  { unfold buffer_ok. rewrite Hb, length_replicate, Hs. reflexivity. }
  destruct (reverb_step_ok s 1 Hcur Hbuf) as (d & Hd & Hstep).
  unfold cursor_ok in Hcur. rewrite Hs in Hcur.
  set (c := Z.to_nat (reverb_index s)) in *.
  assert (Hc : (c < N)%nat) by lia.
  rewrite Hb, lookup_replicate in Hd. destruct Hd as [Hd _]. subst d.
  assert (Hinv : after_impulse N c 1 (reverb_next 1 0 s)).
  { unfold after_impulse, reverb_next. simpl.
    split; [exact Hm|]. split; [exact Hs|]. split.
    - fold c. rewrite Hb. f_equal.
      rewrite Nat.Div0.div_0_l. simpl. lra.
    - rewrite Hs. replace (reverb_index s) with (Z.of_nat ((c + 0) mod N)).
      + apply cursor_advance. exact HN.
      + rewrite Nat.add_0_r, Nat.mod_small by exact Hc. lia. }
  destruct (silent_tail N c HN Hc n 1 _ ltac:(lia) Hinv)
    as (out & s' & Hloop & Hlen & Hout).
  exists (0 :: out), s'. split.
  { unfold impulse. simpl. unfold bind at 1. rewrite Hstep.
    unfold bind at 1. rewrite Hloop. unfold ret. do 3 f_equal. rewrite Hm. lra. }
  split; [simpl; congruence|].
  intros [|t] Ht.
  - reflexivity.
  - simpl. apply Hout. lia.
Qed.

Lemma init_ok (sr : Z) :
  (0 <= sr)%Z ->
  init sr = Ok (mkEffects sr 1 0 0 0 0 0 (reverb_capacity sr)
                  (replicate (Z.to_nat (reverb_capacity sr)) 0) 0).
Proof.
  intros H. unfold init, np_zeros.
  assert (Hq : (0 <= reverb_capacity sr)%Z) by (apply Z.quot_pos; lia).
  replace (reverb_capacity sr <? 0)%Z with false by (symmetry; apply Z.ltb_ge; exact Hq).
  reflexivity.
Qed.

Lemma reverb_capacity_pos (sr : Z) : (20 <= sr)%Z -> (1 <= reverb_capacity sr)%Z.
Proof.
  intros H. unfold reverb_capacity.
  rewrite Z.quot_div_nonneg by lia.
  apply Z.div_le_lower_bound; lia.
Qed.

Lemma echo_silent (N t : nat) : (t mod N <> 0)%nat -> echo N t = 0.
Proof.
  intros H. unfold echo. apply Nat.eqb_neq in H. rewrite H, andb_false_r. reflexivity.
Qed.

Lemma echo_multiple (N k : nat) :
  (0 < N)%nat -> (1 <= k)%nat -> echo N (k * N) = (3/10) ^ (k - 1).
Proof.
  intros HN Hk. unfold echo.
  rewrite Nat.Div0.mod_mul, Nat.div_mul by lia.
  replace (1 <=? k * N)%nat with true by (symmetry; apply Nat.leb_le; nia).
  reflexivity.
Qed.

(** C4. On a freshly constructed engine (silent delay line of
    [int(0.05 * sample_rate)] slots, at least one) with the reverb mix at
    1, a unit impulse followed by silence comes out as: silence at the
    impulse itself and at every sample that is not a multiple of the
    capacity, the first echo with amplitude 1 exactly one capacity after
    the impulse, and every later echo, one capacity after the previous
    one, with 0.3 times the previous echo's amplitude. *)
Theorem reverb_impulse_echoes (sr : Z) (n : nat) (Hsr : (20 <= sr)%Z) :
  exists (s0 : GuitarAmpEffects) (out : list R) (s' : GuitarAmpEffects),
    init sr = Ok s0 /\
    reverb_buffer s0 = replicate (Z.to_nat (reverb_capacity sr)) 0 /\
    apply_reverb (impulse n) (set_reverb_mix 1 s0) = Ok (out, s') /\
    length out = S n /\
    out !! 0%nat = Some 0 /\
    (forall t : nat, (t <= n)%nat -> (t mod Z.to_nat (reverb_capacity sr) <> 0)%nat ->
       out !! t = Some 0) /\
    ((Z.to_nat (reverb_capacity sr) <= n)%nat ->
       out !! Z.to_nat (reverb_capacity sr) = Some 1) /\
    (forall k : nat, (1 <= k)%nat -> (S k * Z.to_nat (reverb_capacity sr) <= n)%nat ->
       exists a : R,
         out !! (k * Z.to_nat (reverb_capacity sr))%nat = Some a /\
         out !! (S k * Z.to_nat (reverb_capacity sr))%nat = Some (a * (3/10))).
Proof.
  pose proof (reverb_capacity_pos sr Hsr) as Hcap.
  set (N := Z.to_nat (reverb_capacity sr)).
  assert (HN : (0 < N)%nat) by (unfold N; lia).
  eexists. 
  destruct (impulse_response N n
              (set_reverb_mix 1 (mkEffects sr 1 0 0 0 0 0 (reverb_capacity sr)
                                   (replicate N 0) 0)))
    as (out & s' & Hrun & Hlen & Hout).
  { exact HN. } { simpl. unfold N. lia. } { reflexivity. }
  { unfold cursor_ok. simpl. lia. } { reflexivity. }
  exists out, s'.
  split; [apply init_ok; lia|].
  split; [reflexivity|]. split; [exact Hrun|]. split; [exact Hlen|].
  split; [apply (Hout 0%nat); lia|].
  split.
  { intros t Ht Hmod. rewrite Hout by exact Ht. f_equal. apply echo_silent. exact Hmod. }
  split.
  { intros Hn. rewrite Hout by exact Hn. f_equal.
    replace N with (1 * N)%nat at 2 by lia. rewrite echo_multiple by lia. reflexivity. }
  intros k Hk Hn. exists ((3/10) ^ (k - 1)). split.
  - rewrite Hout by nia. f_equal. apply echo_multiple; lia.
  - rewrite Hout by exact Hn. f_equal. rewrite echo_multiple by lia.
    replace (S k - 1)%nat with (S (k - 1)) by lia. simpl. lra.
Qed.

Lemma reverb_impulse_echoes_witness :
  exists (s0 : GuitarAmpEffects) (out : list R) (s' : GuitarAmpEffects),
    init 100 = Ok s0 /\
    reverb_buffer s0 = replicate (Z.to_nat (reverb_capacity 100)) 0 /\
    apply_reverb (impulse 12) (set_reverb_mix 1 s0) = Ok (out, s') /\
    length out = 13%nat /\
    out !! 0%nat = Some 0 /\
    (forall t : nat, (t <= 12)%nat -> (t mod Z.to_nat (reverb_capacity 100) <> 0)%nat ->
       out !! t = Some 0) /\
    ((Z.to_nat (reverb_capacity 100) <= 12)%nat ->
       out !! Z.to_nat (reverb_capacity 100) = Some 1) /\
    (forall k : nat, (1 <= k)%nat -> (S k * Z.to_nat (reverb_capacity 100) <= 12)%nat ->
       exists a : R,
         out !! (k * Z.to_nat (reverb_capacity 100))%nat = Some a /\
         out !! (S k * Z.to_nat (reverb_capacity 100))%nat = Some (a * (3/10))).
Proof.
  apply (reverb_impulse_echoes 100 12). lia.
Defined.

(** * Tone control: the filters keep no memory between calls *)

Lemma sosfilt_zi_length (sos : list sos_section) (x : list R) :
  forall zi : list sos_state, length (fst (sosfilt_zi sos zi x)) = length x.
Proof.
  induction x as [|x0 xs IH]; intros zi; simpl; [reflexivity|].
  destruct (cascade_step sos zi x0) as [y zi'].
  specialize (IH zi'). destruct (sosfilt_zi sos zi' xs) as [ys zf].
  simpl in *. congruence.
Qed.

Lemma sosfilt_length (sos : list sos_section) (x : list R) :
  length (sosfilt sos x) = length x.
Proof. apply sosfilt_zi_length. Qed.

(** Filtering a concatenation is filtering the first block and then
    filtering the second one from the delay memory the first one left. *)
Lemma sosfilt_zi_app (sos : list sos_section) (x1 x2 : list R) :
  forall zi : list sos_state,
  sosfilt_zi sos zi (x1 ++ x2)
  = (fst (sosfilt_zi sos zi x1)
       ++ fst (sosfilt_zi sos (snd (sosfilt_zi sos zi x1)) x2),
     snd (sosfilt_zi sos (snd (sosfilt_zi sos zi x1)) x2)).
Proof.
  induction x1 as [|x0 xs IH]; intros zi; simpl.
  - destruct (sosfilt_zi sos zi x2); reflexivity.
  - destruct (cascade_step sos zi x0) as [y zi'].
    rewrite (IH zi'). destruct (sosfilt_zi sos zi' xs) as [ys zf]. reflexivity.
Qed.

Lemma sosfilt_take (sos : list sos_section) (B1 B2 : list R) :
  take (length B1) (sosfilt sos (B1 ++ B2)) = sosfilt sos B1.
Proof.
  unfold sosfilt. rewrite sosfilt_zi_app. simpl.
  apply take_app_length'. symmetry. apply sosfilt_zi_length.
Qed.

Lemma vadd_take (n : nat) (a b : list R) :
  take n (vadd a b) = vadd (take n a) (take n b).
Proof. apply zip_with_take. Qed.

Lemma vsub_take (n : nat) (a b : list R) :
  take n (vsub a b) = vsub (take n a) (take n b).
Proof. apply zip_with_take. Qed.

Lemma vscale_take (n : nat) (a : list R) (k : R) :
  take n (vscale a k) = vscale (take n a) k.
Proof. apply firstn_map. Qed.

Lemma vadd_length (a b : list R) :
  length b = length a -> length (vadd a b) = length a.
Proof. intros H. unfold vadd. rewrite length_zip_with. lia. Qed.

Lemma vsub_length (a b : list R) :
  length b = length a -> length (vsub a b) = length a.
Proof. intros H. unfold vsub. rewrite length_zip_with. lia. Qed.

Lemma vscale_length (a : list R) (k : R) : length (vscale a k) = length a.
Proof. apply length_map. Qed.

(** The contribution of a shelf band (bass, treble) and of the mid band
    have the length of the block. *)
Lemma shelf_length (sos : list sos_section) (B : list R) (g : R) :
  length (vscale (vsub (sosfilt sos B) B) g) = length B.
Proof.
  rewrite vscale_length, vsub_length; rewrite sosfilt_length; reflexivity.
Qed.

Lemma midband_length (sos : list sos_section) (B : list R) (g h : R) :
  length (vscale (vscale (sosfilt sos B) g) h) = length B.
Proof. rewrite !vscale_length. apply sosfilt_length. Qed.

Lemma shelf_take (sos : list sos_section) (B1 B2 : list R) (g : R) :
  take (length B1) (vscale (vsub (sosfilt sos (B1 ++ B2)) (B1 ++ B2)) g)
  = vscale (vsub (sosfilt sos B1) B1) g.
Proof. rewrite vscale_take, vsub_take, sosfilt_take, take_app_length. reflexivity. Qed.

Lemma midband_take (sos : list sos_section) (B1 B2 : list R) (g h : R) :
  take (length B1) (vscale (vscale (sosfilt sos (B1 ++ B2)) g) h)
  = vscale (vscale (sosfilt sos B1) g) h.
Proof. rewrite !vscale_take, sosfilt_take. reflexivity. Qed.

Ltac tone_length :=
  repeat first [ reflexivity
               | rewrite vadd_length
               | rewrite shelf_length
               | rewrite midband_length
               | rewrite length_app ].

Section ToneMemory.

Variable butter : nat -> btype -> Z -> result (list sos_section).


(** One call on [B1 ++ B2] against one call on [B1]: both leave the
    engine alone, both raise or both return, and the first [length B1]
    samples agree. *)
Lemma apply_eq_prefix (s : GuitarAmpEffects) (B1 B2 : list R) :
  match apply_eq butter B1 s, apply_eq butter (B1 ++ B2) s with
  | Ok (o1, s1), Ok (o12, s2) =>
      s1 = s /\ s2 = s /\
      length o1 = length B1 /\
      length o12 = (length B1 + length B2)%nat /\
      take (length B1) o12 = o1
  | Raise e1, Raise e2 => e1 = e2
  | _, _ => False
  end.
Proof.
  unfold apply_eq, bind, get_self, lift, ret.
  destruct (negb (Reqb (bass s) 0));
    [destruct (butter 2 (Low 100) (sample_rate s)) as [sb|e]; [|reflexivity]|];
    (destruct (negb (Reqb (treble s) 0));
       [destruct (butter 2 (High 3000) (sample_rate s)) as [st|e]; [|reflexivity]|]);
    (destruct (negb (Reqb (mid s) 0));
       [destruct (butter 2 (Band 400 1600) (sample_rate s)) as [sm|e]; [|reflexivity]|]);
    (split; [reflexivity|]; split; [reflexivity|]; split; [|split]);
    try solve [tone_length];
    rewrite ?vadd_take, ?shelf_take, ?midband_take, ?take_app_length; reflexivity.
Qed.

End ToneMemory.

Section ToneRestart.

Variable butter : nat -> btype -> Z -> result (list sos_section).

(** What the tone control returns when all three bands are active and the
    three designs are available. *)
Lemma apply_eq_all_bands (s : GuitarAmpEffects) (B : list R)
    (sb st sm : list sos_section) :
  bass s <> 0 -> treble s <> 0 -> mid s <> 0 ->
  butter 2 (Low 100) (sample_rate s) = Ok sb ->
  butter 2 (High 3000) (sample_rate s) = Ok st ->
  butter 2 (Band 400 1600) (sample_rate s) = Ok sm ->
  apply_eq butter B s
  = Ok (vadd (vadd (vadd B (vscale (vsub (sosfilt sb B) B) (1 + bass s)))
                   (vscale (vsub (sosfilt st B) B) (1 + treble s)))
             (vscale (vscale (sosfilt sm B) (1 + mid s)) (1/2)), s).
Proof.
  intros Hb Ht Hm Db Dt Dm.
  apply Reqb_false in Hb, Ht, Hm.
  unfold apply_eq, bind, get_self, lift, ret.
  rewrite Hb, Ht, Hm, Db, Dt, Dm. reflexivity.
Qed.

(** C1, as the code has it.  The tone control keeps no delay memory: a
    call never changes the engine, so a call on [B1] followed by a call on
    [B2] returns what two unrelated calls return, the second one filtering
    [B2] from zero delay memory; and one call on [B1 ++ B2] agrees with the
    call on [B1] on the first [length B1] samples. *)
Theorem tone_control_restarts (s : GuitarAmpEffects) (B1 B2 : list R) :
  (let* o1 := apply_eq butter B1 in
   let* o2 := apply_eq butter B2 in
   ret (o1, o2)) s
  = match apply_eq butter B1 s, apply_eq butter B2 s with
    | Ok (o1, _), Ok (o2, _) => Ok ((o1, o2), s)
    | Raise e, _ => Raise e
    | Ok _, Raise e => Raise e
    end /\
  match apply_eq butter B1 s, apply_eq butter (B1 ++ B2) s with
  | Ok (o1, s1), Ok (o12, s2) =>
      s1 = s /\ s2 = s /\
      length o1 = length B1 /\
      length o12 = (length B1 + length B2)%nat /\
      take (length B1) o12 = o1
  | Raise e1, Raise e2 => e1 = e2
  | _, _ => False
  end.
Proof.
  split; [|apply apply_eq_prefix].
  unfold bind.
  destruct (apply_eq butter B1 s) as [[o1 s1]|e] eqn:E1; [|reflexivity].
  apply apply_eq_frame in E1. subst s1.
  destruct (apply_eq butter B2 s) as [[o2 s2]|e] eqn:E2; [|reflexivity].
  apply apply_eq_frame in E2. subst s2. reflexivity.
Qed.

End ToneRestart.

(** C1 as stated fails on the default engine with bass, mid and treble
    all at 1: the block [1] followed by the block [0] comes out with a
    second sample of 0, while the block [1; 0] in one call comes out with a
    second sample below -0.8. *)
Lemma tone_control_concat_differs :
  exists o1 o2 o12 : list R,
    apply_eq butter_44100 [1] tone_engine = Ok (o1, tone_engine) /\
    apply_eq butter_44100 [0] tone_engine = Ok (o2, tone_engine) /\
    apply_eq butter_44100 ([1] ++ [0]) tone_engine = Ok (o12, tone_engine) /\
    o2 = [0] /\
    (exists b : R, o12 !! 1%nat = Some b /\ b < - (4/5)) /\
    o1 ++ o2 <> o12.
Proof.
  do 3 eexists.
  split; [apply apply_eq_all_bands; try reflexivity; simpl; lra|].
  split; [apply apply_eq_all_bands; try reflexivity; simpl; lra|].
  split; [apply apply_eq_all_bands; try reflexivity; simpl; lra|].
  unfold sosfilt.
  cbn [sosfilt_zi cascade_step section_step fst snd b0 b1 b2 a1 a2
       vadd vsub vscale zip_with map length replicate app
       bass mid treble tone_engine set_treble set_mid set_bass engine44100].
  split; [|split].
  - f_equal. lra.
  - eexists. split; [reflexivity|]. lra.
  - intros H. injection H as H. lra.
Qed.

(** * Chain determinism and sensitivity to the delay line *)

(** The output of one pass of the reverb loop body, given the sample under
    the cursor. *)
Lemma reverb_step_value (s t : GuitarAmpEffects) (x y d : R) :
  (0 <= reverb_index s)%Z ->
  reverb_buffer s !! Z.to_nat (reverb_index s) = Some d ->
  reverb_step x s = Ok (y, t) ->
  y = x * (1 - reverb_mix s) + d * reverb_mix s.
Proof.
  intros Hi Hd.
  pose proof (lookup_lt_Some _ _ _ Hd) as Hlt.
  unfold reverb_step, bind, get_self, lift, np_getitem, np_setitem, modify, ret.
  rewrite np_index_in_range by lia. rewrite Hd.
  destruct (py_mod _ _) as [idx|e]; [|discriminate].
  intros H. inversion H. reflexivity.
Qed.

Lemma apply_distortion_length (s s' : GuitarAmpEffects) (B out : list R) :
  apply_distortion B s = Ok (out, s') -> length out = length B.
Proof.
  unfold apply_distortion. destruct (Reqb (distortion s) 0); intros H; inversion H.
  - reflexivity.
  - rewrite !length_map. reflexivity.
Qed.

Section Determinism.

Variable butter : nat -> btype -> Z -> result (list sos_section).

Lemma apply_eq_length (s s' : GuitarAmpEffects) (B out : list R) :
  apply_eq butter B s = Ok (out, s') -> length out = length B.
Proof.
  intros H. pose proof (apply_eq_prefix butter s B []) as P.
  rewrite app_nil_r, H in P. tauto.
Qed.

(** With distortion and tone control at their neutral values the chain is
    the reverb applied to the scaled block. *)
Lemma process_clean (s : GuitarAmpEffects) (B : list R) :
  distortion s = 0 -> bass s = 0 -> mid s = 0 -> treble s = 0 ->
  process butter B s = apply_reverb (map (fun x => x * gain s) B) s.
Proof.
  intros Hd Hb Hm Ht.
  destruct (process_stages butter s B) as (g & d & Hg & Hdist & Hp).
  rewrite Hp. inversion Hg; subst g.
  rewrite apply_distortion_bypass in Hdist by exact Hd.
  inversion Hdist; subst d.
  rewrite apply_eq_bypass by assumption. reflexivity.
Qed.

End Determinism.

(** Evaluation of the reverb loop on a concrete delay line. *)
Ltac run_reverb :=
  rewrite ?process_clean by reflexivity;
  rewrite apply_reverb_active by (simpl; lra);
  unfold reverb_loop, reverb_step, bind, get_self, lift, modify, ret,
    np_getitem, np_setitem, py_mod; simpl.


(** * Block length through the chain *)

Section Length.

Variable butter : nat -> btype -> Z -> result (list sos_section).

Lemma apply_eq_total (s : GuitarAmpEffects) (B : list R)
    (sb st sm : list sos_section) :
  butter 2 (Low 100) (sample_rate s) = Ok sb ->
  butter 2 (High 3000) (sample_rate s) = Ok st ->
  butter 2 (Band 400 1600) (sample_rate s) = Ok sm ->
  exists out, apply_eq butter B s = Ok (out, s) /\ length out = length B.
Proof.
  intros Db Dt Dm. unfold apply_eq, bind, get_self, lift, ret.
  rewrite Db, Dt, Dm.
  destruct (negb (Reqb (bass s) 0)), (negb (Reqb (treble s) 0)),
    (negb (Reqb (mid s) 0));
    (eexists; split; [reflexivity | tone_length]).
Qed.

(** On an engine with a well-formed delay line and the three filter
    designs available, [process] returns, and returns a block of the
    length of its input, whatever the six parameters are. *)
Lemma process_length (s : GuitarAmpEffects) (B : list R)
    (sb st sm : list sos_section) :
  cursor_ok s -> buffer_ok s ->
  butter 2 (Low 100) (sample_rate s) = Ok sb ->
  butter 2 (High 3000) (sample_rate s) = Ok st ->
  butter 2 (Band 400 1600) (sample_rate s) = Ok sm ->
  exists out s', process butter B s = Ok (out, s') /\
    length out = length B /\ cursor_ok s' /\ buffer_ok s'.
Proof.
  intros Hc Hb Db Dt Dm.
  destruct (process_stages butter s B) as (g & d & Hg & Hd & Hp).
  rewrite Hp.
  destruct (apply_eq_total s d sb st sm Db Dt Dm) as (e & He & Hlen).
  rewrite He.
  assert (Hle : length e = length B).
  { rewrite Hlen. apply apply_distortion_length in Hd. rewrite Hd.
    inversion Hg. apply length_map. }
  destruct (Req_dec_T (reverb_mix s) 0) as [Hm|Hm].
  - rewrite apply_reverb_bypass by exact Hm. exists e, s. auto.
  - rewrite apply_reverb_active by exact Hm.
    destruct (reverb_loop_total e s Hc Hb) as (out & s' & Hrun & Hl & Hc' & Hb' & _).
    exists out, s'. rewrite Hrun. repeat split; try assumption; try apply Hc'.
    congruence.
Qed.

End Length.

(** C8, as the code has it.  At 44100 Hz, on an engine with a well-formed
    delay line and the three filter designs of the tone control available,
    [process] returns for every block of 1024 samples and whatever the six
    parameters are, and the block it returns has exactly 1024 samples. *)
Theorem process_length_1024
    (butter : nat -> btype -> Z -> result (list sos_section))
    (s : GuitarAmpEffects) (B : list R) (sb st sm : list sos_section) :
  sample_rate s = 44100%Z -> cursor_ok s -> buffer_ok s ->
  butter 2%nat (Low 100) 44100%Z = Ok sb ->
  butter 2%nat (High 3000) 44100%Z = Ok st ->
  butter 2%nat (Band 400 1600) 44100%Z = Ok sm ->
  length B = 1024%nat ->
  exists out s', process butter B s = Ok (out, s') /\ length out = 1024%nat.
Proof.
  intros Hsr Hc Hb Db Dt Dm HB.
  edestruct (process_length butter s B sb st sm) as (out & s' & H & Hl & _);
    [exact Hc | exact Hb | rewrite Hsr; assumption ..|].
  exists out, s'. split; [exact H | congruence].
Qed.

Lemma process_length_1024_witness :
  exists out s', process butter_44100 (replicate 1024 1) tone_engine = Ok (out, s') /\
    length out = 1024%nat.
Proof.
  eapply (process_length_1024 butter_44100 tone_engine (replicate 1024 1)).
  - reflexivity.
  - unfold cursor_ok. simpl. lia.
  - reflexivity.
  - reflexivity.
  - reflexivity.
  - reflexivity.
  - apply length_replicate.
Defined.

(** * Construction and the engine invariant *)

Lemma reverb_capacity_neg (sr : Z) : (reverb_capacity sr < 0 <-> sr <= -20)%Z.
Proof.
  unfold reverb_capacity.
  pose proof (Z.quot_rem' sr 20) as E.
  destruct (Z_le_gt_dec 0 sr) as [H|H].
  - pose proof (Z.quot_pos sr 20 H ltac:(lia)). lia.
  - pose proof (Z.rem_bound_pos_neg sr 20 ltac:(lia) ltac:(lia)). lia.
Qed.

Lemma reverb_capacity_small (sr : Z) : (1 <= reverb_capacity sr <-> 20 <= sr)%Z.
Proof.
  unfold reverb_capacity.
  pose proof (Z.quot_rem' sr 20) as E.
  destruct (Z_le_gt_dec 0 sr) as [H|H].
  - pose proof (Z.rem_bound_pos_pos sr 20 ltac:(lia) H). lia.
  - pose proof (Z.rem_bound_pos_neg sr 20 ltac:(lia) ltac:(lia)). lia.
Qed.




Lemma np_clip_range (v lo hi : R) : lo <= hi -> lo <= np_clip v lo hi <= hi.
Proof.
  intros H. unfold np_clip, Rmin, Rmax.
  repeat destruct (Rle_dec _ _); lra.
Qed.

Lemma np_clip_id (v lo hi : R) : lo <= v <= hi -> np_clip v lo hi = v.
Proof.
  intros H. unfold np_clip, Rmin, Rmax.
  repeat destruct (Rle_dec _ _); lra.
Qed.

Lemma np_clip_idem (v lo hi : R) :
  lo <= hi -> np_clip (np_clip v lo hi) lo hi = np_clip v lo hi.
Proof. intros H. apply np_clip_id. apply np_clip_range. exact H. Qed.




(** Calling [set_parameters] a second time with the same keyword
    arguments changes nothing: clamping is idempotent. *)
Theorem set_parameters_idempotent (kwargs : gmap string R) (s : GuitarAmpEffects) :
  exists s' : GuitarAmpEffects,
    set_parameters kwargs s = Ok (tt, s') /\
    set_parameters kwargs s' = Ok (tt, s').
Proof.
  eexists. split; [reflexivity|].
  unfold set_parameters, clip_field.
  destruct (kwargs !! "gain"), (kwargs !! "distortion"), (kwargs !! "bass"),
    (kwargs !! "mid"), (kwargs !! "treble"), (kwargs !! "reverb_mix");
    simpl; rewrite ?np_clip_idem by lra; reflexivity.
Qed.

(** A requested value that already lies in the declared range of its
    control is stored as it is and read back unchanged. *)
Theorem set_parameters_in_range_exact (kwargs : gmap string R) (s : GuitarAmpEffects)
    (v : R) :
  (kwargs !! "gain" = Some v -> 1/10 <= v <= 5 ->
     gain <$> state_of (set_parameters kwargs s) = Some v) /\
  (kwargs !! "distortion" = Some v -> 0 <= v <= 1 ->
     distortion <$> state_of (set_parameters kwargs s) = Some v) /\
  (kwargs !! "bass" = Some v -> -1 <= v <= 1 ->
     bass <$> state_of (set_parameters kwargs s) = Some v) /\
  (kwargs !! "mid" = Some v -> -1 <= v <= 1 ->
     mid <$> state_of (set_parameters kwargs s) = Some v) /\
  (kwargs !! "treble" = Some v -> -1 <= v <= 1 ->
     treble <$> state_of (set_parameters kwargs s) = Some v) /\
  (kwargs !! "reverb_mix" = Some v -> 0 <= v <= 1 ->
     reverb_mix <$> state_of (set_parameters kwargs s) = Some v).
Proof.
  unfold set_parameters, clip_field.
  repeat split; intros Hk Hv; rewrite Hk;
    destruct (kwargs !! "gain"), (kwargs !! "distortion"), (kwargs !! "bass"),
      (kwargs !! "mid"), (kwargs !! "treble"), (kwargs !! "reverb_mix");
    simpl; f_equal; apply np_clip_id; exact Hv.
Qed.

Lemma set_parameters_in_range_exact_witness :
  bass <$> state_of (set_parameters {[ "bass" := 3/10 ]} engine100) = Some (3/10).
Proof.
  destruct (set_parameters_in_range_exact {[ "bass" := 3/10 ]} engine100 (3/10))
    as (_ & _ & H & _).
  apply H; [apply lookup_singleton_eq | lra].
Defined.

(** * The chain keeps the engine invariant *)

(** A pass of the loop body that returns writes the buffer in place and
    moves the cursor; nothing else changes. *)
Lemma reverb_step_frame (s s' : GuitarAmpEffects) (x y : R) :
  reverb_step x s = Ok (y, s') ->
  same_controls s s' /\ length (reverb_buffer s') = length (reverb_buffer s).
Proof.
  unfold reverb_step, bind, get_self, lift, modify, ret.
  destruct (np_getitem _ _) as [d|e]; [|discriminate].
  unfold np_setitem. destruct (np_index _ _) as [n|]; [|discriminate].
  unfold py_mod. destruct (reverb_buffer_size s =? 0)%Z; [discriminate|].
  intros H. inversion H; subst. unfold same_controls. simpl.
  rewrite length_insert. repeat split; reflexivity.
Qed.

Lemma same_controls_refl (s : GuitarAmpEffects) : same_controls s s.
Proof. unfold same_controls. repeat split; reflexivity. Qed.

Lemma same_controls_trans (s1 s2 s3 : GuitarAmpEffects) :
  same_controls s1 s2 -> same_controls s2 s3 -> same_controls s1 s3.
Proof.
  unfold same_controls. intros (A1 & A2 & A3 & A4 & A5 & A6 & A7 & A8)
    (B1 & B2 & B3 & B4 & B5 & B6 & B7 & B8).
  repeat split; congruence.
Qed.

Lemma reverb_loop_frame (B : list R) : forall (s s' : GuitarAmpEffects) (out : list R),
  reverb_loop B s = Ok (out, s') ->
  same_controls s s' /\
  length (reverb_buffer s') = length (reverb_buffer s) /\
  length out = length B.
Proof.
  induction B as [|x rest IH]; intros s s' out.
  - simpl. unfold ret. intros H. inversion H; subst.
    split; [apply same_controls_refl|]. split; reflexivity.
  - simpl. unfold bind at 1.
    destruct (reverb_step x s) as [[y s1]|e] eqn:Hstep; [|discriminate].
    unfold bind at 1.
    destruct (reverb_loop rest s1) as [[ys s2]|e] eqn:Hloop; [|discriminate].
    unfold ret. intros H. inversion H; subst.
    apply reverb_step_frame in Hstep as [C1 L1].
    apply IH in Hloop as (C2 & L2 & L3).
    split; [eapply same_controls_trans; eassumption|].
    split; [congruence | simpl; congruence].
Qed.

Lemma apply_reverb_frame (B out : list R) (s s' : GuitarAmpEffects) :
  apply_reverb B s = Ok (out, s') ->
  same_controls s s' /\
  length (reverb_buffer s') = length (reverb_buffer s) /\
  length out = length B.
Proof.
  destruct (Req_dec_T (reverb_mix s) 0) as [Hm|Hm].
  - rewrite apply_reverb_bypass by exact Hm. intros H. inversion H; subst.
    split; [apply same_controls_refl|]. split; reflexivity.
  - rewrite apply_reverb_active by exact Hm. apply reverb_loop_frame.
Qed.

Lemma apply_reverb_cursor (B out : list R) (s s' : GuitarAmpEffects) :
  cursor_ok s -> apply_reverb B s = Ok (out, s') -> cursor_ok s'.
Proof.
  intros Hc. destruct (Req_dec_T (reverb_mix s) 0) as [Hm|Hm].
  - rewrite apply_reverb_bypass by exact Hm. intros H. inversion H; subst. exact Hc.
  - rewrite apply_reverb_active by exact Hm. apply reverb_loop_cursor. exact Hc.
Qed.

Section Invariant.

Variable butter : nat -> btype -> Z -> result (list sos_section).

(** What a returning [process] call leaves in place. *)
Lemma process_frame (s s' : GuitarAmpEffects) (B out : list R)
    (Hrun : process butter B s = Ok (out, s')) :
  length out = length B /\
  same_controls s s' /\
  (engine_ok s -> engine_ok s').
Proof.
  destruct (process_stages butter s B) as (g & d & Hg & Hd & Hp).
  rewrite Hp in Hrun.
  destruct (apply_eq butter d s) as [[e s1]|x] eqn:He; [|discriminate].
  apply apply_eq_length in He.
  apply apply_distortion_length in Hd.
  inversion Hg; subst g. rewrite length_map in Hd.
  pose proof (apply_reverb_frame _ _ _ _ Hrun) as (Hsame & Hlen & Hout).
  split; [congruence|]. split; [exact Hsame|].
  intros (Hp0 & Hc & Hb). split; [|split].
  - destruct Hsame as (_ & E1 & E2 & E3 & E4 & E5 & E6 & _).
    unfold params_ok in *. rewrite E1, E2, E3, E4, E5, E6. exact Hp0.
  - eapply apply_reverb_cursor; eassumption.
  - unfold buffer_ok in *. destruct Hsame as (_ & _ & _ & _ & _ & _ & _ & E).
    rewrite Hlen, E. exact Hb.
Qed.

(** A [process] call that returns gives back a block of the length of its
    input and leaves the sample rate, the six controls and the capacity as
    they were; an engine that satisfied the invariant (controls in range,
    cursor inside the delay line, buffer of the recorded capacity) still
    satisfies it. *)
Theorem process_keeps_invariant (s s' : GuitarAmpEffects) (B out : list R)
    (Hrun : process butter B s = Ok (out, s')) :
  length out = length B /\
  same_controls s s' /\
  (engine_ok s -> engine_ok s').
Proof. exact (process_frame s s' B out Hrun). Qed.


End Invariant.

(** * Distortion stage: shape of the transfer curve *)





Lemma apply_distortion_transfer (s : GuitarAmpEffects) (B : list R) :
  apply_distortion B s = Ok (map (transfer (distortion s)) B, s).
Proof.
  unfold apply_distortion, transfer.
  destruct (Reqb (distortion s) 0).
  - rewrite map_id. reflexivity.
  - cbv zeta. rewrite !map_map. reflexivity.
Qed.



(** * Tone control: linearity *)

Lemma lookup_map (f : R -> R) (l : list R) (i : nat) : map f l !! i = f <$> (l !! i).
Proof. apply list_lookup_fmap. Qed.

(** Pointwise comparison of two expressions built from [vadd], [vsub] and
    [vscale]. *)
Ltac vec_eq :=
  apply list_eq; intros ?i; unfold vadd, vsub, vscale;
  repeat first [rewrite lookup_zip_with | rewrite lookup_map];
  repeat match goal with
         | |- context [?l !! ?i] => destruct (l !! i); simpl
         end;
  try reflexivity; f_equal; ring.

Lemma lin_shelf (f1 f2 b1 b2 : list R) (k g : R) :
  vscale (vsub (vadd (vscale f1 k) f2) (vadd (vscale b1 k) b2)) g
  = vadd (vscale (vscale (vsub f1 b1) g) k) (vscale (vsub f2 b2) g).
Proof. vec_eq. Qed.

Lemma lin_mid (f1 f2 : list R) (k g h : R) :
  vscale (vscale (vadd (vscale f1 k) f2) g) h
  = vadd (vscale (vscale (vscale f1 g) h) k) (vscale (vscale f2 g) h).
Proof. vec_eq. Qed.

Lemma lin_acc (r1 r2 c1 c2 : list R) (k : R) :
  vadd (vadd (vscale r1 k) r2) (vadd (vscale c1 k) c2)
  = vadd (vscale (vadd r1 c1) k) (vadd r2 c2).
Proof. vec_eq. Qed.

Lemma section_step_lin (c : sos_section) (z1 z2 : sos_state) (x1 x2 k : R) :
  section_step c (add_state (scale_state k z1) z2) (x1 * k + x2)
  = (fst (section_step c z1 x1) * k + fst (section_step c z2 x2),
     add_state (scale_state k (snd (section_step c z1 x1)))
               (snd (section_step c z2 x2))).
Proof.
  unfold section_step, add_state, scale_state. simpl.
  f_equal; [ring | f_equal; ring].
Qed.

Lemma cascade_step_length (sos : list sos_section) :
  forall (zi : list sos_state) (x : R),
  length zi = length sos -> length (snd (cascade_step sos zi x)) = length sos.
Proof.
  induction sos as [|c sos IH]; intros [|z zi] x H; simpl in *; try lia.
  specialize (IH zi (b0 c * x + fst z) ltac:(lia)).
  destruct (cascade_step sos zi (b0 c * x + fst z)). simpl in *. lia.
Qed.

Lemma cascade_step_lin (k : R) (sos : list sos_section) :
  forall (z1 z2 : list sos_state) (x1 x2 : R),
  length z1 = length sos -> length z2 = length sos ->
  cascade_step sos (zip_with add_state (map (scale_state k) z1) z2) (x1 * k + x2)
  = (fst (cascade_step sos z1 x1) * k + fst (cascade_step sos z2 x2),
     zip_with add_state (map (scale_state k) (snd (cascade_step sos z1 x1)))
                        (snd (cascade_step sos z2 x2))).
Proof.
  induction sos as [|c sos IH]; intros [|a z1] [|b z2] x1 x2 H1 H2;
    simpl in H1, H2; try lia.
  - reflexivity.
  - cbn [map zip_with cascade_step].
    rewrite section_step_lin.
    destruct (section_step c a x1) as [u1 a'] eqn:E1.
    destruct (section_step c b x2) as [u2 b'] eqn:E2.
    cbn [fst snd].
    rewrite (IH z1 z2 u1 u2) by lia.
    destruct (cascade_step sos z1 u1) as [y1 zs1].
    destruct (cascade_step sos z2 u2) as [y2 zs2].
    reflexivity.
Qed.

Lemma sosfilt_zi_state_length (sos : list sos_section) (x : list R) :
  forall zi : list sos_state,
  length zi = length sos -> length (snd (sosfilt_zi sos zi x)) = length sos.
Proof.
  induction x as [|x0 xs IH]; intros zi H; simpl; [exact H|].
  pose proof (cascade_step_length sos zi x0 H) as L.
  destruct (cascade_step sos zi x0) as [y zi']. simpl in L.
  specialize (IH zi' L). destruct (sosfilt_zi sos zi' xs). exact IH.
Qed.

Lemma sosfilt_zi_lin (k : R) (sos : list sos_section) (x1 : list R) :
  forall (x2 : list R) (z1 z2 : list sos_state),
  length x1 = length x2 ->
  length z1 = length sos -> length z2 = length sos ->
  sosfilt_zi sos (zip_with add_state (map (scale_state k) z1) z2)
             (vadd (vscale x1 k) x2)
  = (vadd (vscale (fst (sosfilt_zi sos z1 x1)) k) (fst (sosfilt_zi sos z2 x2)),
     zip_with add_state (map (scale_state k) (snd (sosfilt_zi sos z1 x1)))
                        (snd (sosfilt_zi sos z2 x2))).
Proof.
  induction x1 as [|a x1 IH]; intros [|b x2] z1 z2 Hx H1 H2; simpl in Hx; try lia.
  - reflexivity.
  - cbn [vadd vscale map zip_with sosfilt_zi].
    rewrite cascade_step_lin by assumption.
    pose proof (cascade_step_length sos z1 a H1) as L1.
    pose proof (cascade_step_length sos z2 b H2) as L2.
    destruct (cascade_step sos z1 a) as [y1 z1'].
    destruct (cascade_step sos z2 b) as [y2 z2'].
    cbn [fst snd] in *.
    change (zip_with Rplus (map (fun x => x * k) x1) x2) with (vadd (vscale x1 k) x2).
    rewrite (IH x2 z1' z2') by lia.
    destruct (sosfilt_zi sos z1' x1) as [ys1 zf1].
    destruct (sosfilt_zi sos z2' x2) as [ys2 zf2].
    reflexivity.
Qed.

(** The zero-state filter is linear. *)
Lemma sosfilt_lin (sos : list sos_section) (x1 x2 : list R) (k : R) :
  length x1 = length x2 ->
  sosfilt sos (vadd (vscale x1 k) x2)
  = vadd (vscale (sosfilt sos x1) k) (sosfilt sos x2).
Proof.
  intros Hx. unfold sosfilt.
  set (z0 := replicate (length sos) (0, 0)).
  assert (Hz : zip_with add_state (map (scale_state k) z0) z0 = z0).
  { unfold z0. induction (length sos) as [|n IH]; [reflexivity|].
    simpl. rewrite IH. f_equal. unfold add_state, scale_state. simpl.
    f_equal; ring. }
  rewrite <- Hz at 1.
  rewrite sosfilt_zi_lin; [reflexivity | exact Hx | |];
    unfold z0; apply length_replicate.
Qed.

Lemma vadd_null (B : list R) : forall c : list R,
  length c = length B -> Forall (fun x => x = 0) c -> vadd B c = B.
Proof.
  induction B as [|b B IH]; intros [|x c] Hl Hc; simpl in Hl; try lia.
  - reflexivity.
  - apply Forall_cons in Hc as [Hx Hc]. unfold vadd in *. simpl.
    rewrite IH by (lia || assumption). subst x. f_equal. ring.
Qed.

Lemma vscale_null (v : list R) (g : R) : g = 0 -> Forall (fun x => x = 0) (vscale v g).
Proof.
  intros ->. unfold vscale. apply Forall_fmap, Forall_true. intros x. simpl. ring.
Qed.

Lemma vscale_null_r (v : list R) (h : R) :
  Forall (fun x => x = 0) v -> Forall (fun x => x = 0) (vscale v h).
Proof.
  intros H. unfold vscale. apply Forall_fmap. eapply Forall_impl; [exact H|].
  intros x ->. simpl. ring.
Qed.

Section ToneLinear.

Variable butter : nat -> btype -> Z -> result (list sos_section).

(** The tone control is linear in the block: for blocks of equal length,
    the response to [k * B1 + B2] is [k] times the response to [B1] plus
    the response to [B2]; the three calls raise together or return
    together. *)
Theorem apply_eq_linear (s : GuitarAmpEffects) (B1 B2 : list R) (k : R)
    (Hlen : length B1 = length B2) :
  match apply_eq butter B1 s, apply_eq butter B2 s,
        apply_eq butter (vadd (vscale B1 k) B2) s with
  | Ok (o1, _), Ok (o2, _), Ok (o, _) => o = vadd (vscale o1 k) o2
  | Raise e1, Raise e2, Raise e => e1 = e /\ e2 = e
  | _, _, _ => False
  end.
Proof.
  unfold apply_eq, bind, get_self, lift, ret.
  destruct (negb (Reqb (bass s) 0));
    [destruct (butter 2 (Low 100) (sample_rate s)) as [sb|e]; [|split; reflexivity]|];
    (destruct (negb (Reqb (treble s) 0));
       [destruct (butter 2 (High 3000) (sample_rate s)) as [st|e];
          [|split; reflexivity]|]);
    (destruct (negb (Reqb (mid s) 0));
       [destruct (butter 2 (Band 400 1600) (sample_rate s)) as [sm|e];
          [|split; reflexivity]|]);
    rewrite ?sosfilt_lin by exact Hlen;
    rewrite ?lin_shelf, ?lin_mid, ?lin_acc; reflexivity.
Qed.

(** A band whose control is at -1 contributes nothing: with bass, mid and
    treble all at -1 (and the three designs available) the block comes
    back unchanged, as it does with the three controls at 0. *)
Theorem apply_eq_full_cut (s : GuitarAmpEffects) (B : list R)
    (sb st sm : list sos_section)
    (Hb : bass s = -1) (Hm : mid s = -1) (Ht : treble s = -1)
    (Db : butter 2 (Low 100) (sample_rate s) = Ok sb)
    (Dt : butter 2 (High 3000) (sample_rate s) = Ok st)
    (Dm : butter 2 (Band 400 1600) (sample_rate s) = Ok sm) :
  apply_eq butter B s = Ok (B, s).
Proof.
  rewrite (apply_eq_all_bands butter s B sb st sm) by (assumption || lra).
  do 2 f_equal.
  rewrite Hb, Hm, Ht.
  rewrite (vadd_null B); [| apply shelf_length | apply vscale_null; lra].
  rewrite (vadd_null B); [| apply shelf_length | apply vscale_null; lra].
  apply vadd_null; [apply midband_length|].
  apply vscale_null_r, vscale_null. lra.
Qed.

(** The tone control raises exactly when an active band's filter design
    is rejected, and the exception is that of the first such band in the
    order bass, treble, mid; the design of a bypassed band is never
    requested. *)
Theorem apply_eq_raises (s : GuitarAmpEffects) (B : list R) (e : exn) :
  apply_eq butter B s = Raise e <->
  (bass s <> 0 /\ butter 2 (Low 100) (sample_rate s) = Raise e) \/
  (band_ready (bass s) (butter 2 (Low 100) (sample_rate s)) /\
   treble s <> 0 /\ butter 2 (High 3000) (sample_rate s) = Raise e) \/
  (band_ready (bass s) (butter 2 (Low 100) (sample_rate s)) /\
   band_ready (treble s) (butter 2 (High 3000) (sample_rate s)) /\
   mid s <> 0 /\ butter 2 (Band 400 1600) (sample_rate s) = Raise e).
Proof.
  unfold apply_eq, bind, get_self, lift, ret, band_ready.
  destruct (Reqb (bass s) 0) eqn:Eb;
    [apply Reqb_true in Eb | apply Reqb_false in Eb];
    (destruct (Reqb (treble s) 0) eqn:Et;
       [apply Reqb_true in Et | apply Reqb_false in Et]);
    (destruct (Reqb (mid s) 0) eqn:Em;
       [apply Reqb_true in Em | apply Reqb_false in Em]);
    cbn [negb];
    destruct (butter 2 (Low 100) (sample_rate s)) as [sb|eb];
    destruct (butter 2 (High 3000) (sample_rate s)) as [st|et];
    destruct (butter 2 (Band 400 1600) (sample_rate s)) as [sm|em];
    (split;
     [ intros H; try discriminate; inversion H; subst; eauto 10
     | intros [[H1 H2]|[(H1 & H2 & H3)|(H1 & H2 & H3 & H4)]];
       try contradiction; try discriminate; try congruence;
       repeat match goal with
              | H : _ \/ _ |- _ => destruct H as [H|[? H]]
              end;
       try contradiction; try discriminate; try congruence ]).
Qed.

End ToneLinear.

Lemma apply_eq_linear_witness :
  match apply_eq butter_44100 [1] tone_engine, apply_eq butter_44100 [2] tone_engine,
        apply_eq butter_44100 (vadd (vscale [1] 3) [2]) tone_engine with
  | Ok (o1, _), Ok (o2, _), Ok (o, _) => o = vadd (vscale o1 3) o2
  | Raise e1, Raise e2, Raise e => e1 = e /\ e2 = e
  | _, _, _ => False
  end.
Proof.
  apply (apply_eq_linear butter_44100 tone_engine [1] [2] 3). reflexivity.
Defined.

Lemma apply_eq_full_cut_witness :
  apply_eq butter_44100 [1; 2]
    (set_treble (-1) (set_mid (-1) (set_bass (-1) engine44100)))
  = Ok ([1; 2], set_treble (-1) (set_mid (-1) (set_bass (-1) engine44100))).
Proof.
  eapply (apply_eq_full_cut butter_44100); reflexivity.
Defined.

(** * Reverb stage: continuity across calls *)

Lemma reverb_loop_app (B1 : list R) : forall (B2 : list R) (s : GuitarAmpEffects),
  reverb_loop (B1 ++ B2) s
  = match reverb_loop B1 s with
    | Ok (o1, s1) =>
        match reverb_loop B2 s1 with
        | Ok (o2, s2) => Ok (o1 ++ o2, s2)
        | Raise e => Raise e
        end
    | Raise e => Raise e
    end.
Proof.
  induction B1 as [|x B1 IH]; intros B2 s.
  - simpl. unfold ret. destruct (reverb_loop B2 s) as [[o2 s2]|e]; reflexivity.
  - simpl. unfold bind at 1 3.
    destruct (reverb_step x s) as [[y s1]|e]; [|reflexivity].
    unfold bind at 1 2. rewrite IH. unfold ret.
    destruct (reverb_loop B1 s1) as [[o1 s2]|e]; [|reflexivity].
    destruct (reverb_loop B2 s2) as [[o2 s3]|e]; reflexivity.
Qed.

(** The reverb of a concatenation, call by call. *)
Lemma apply_reverb_concat (s : GuitarAmpEffects) (B1 B2 : list R) :
  apply_reverb (B1 ++ B2) s
  = match apply_reverb B1 s with
    | Ok (o1, s1) =>
        match apply_reverb B2 s1 with
        | Ok (o2, s2) => Ok (o1 ++ o2, s2)
        | Raise e => Raise e
        end
    | Raise e => Raise e
    end.
Proof.
  destruct (Req_dec_T (reverb_mix s) 0) as [Hm|Hm].
  - rewrite !apply_reverb_bypass by exact Hm. cbv beta iota.
    rewrite ?apply_reverb_bypass by exact Hm. reflexivity.
  - rewrite !apply_reverb_active by exact Hm. rewrite reverb_loop_app.
    destruct (reverb_loop B1 s) as [[o1 s1]|e] eqn:E1; [|reflexivity].
    apply reverb_loop_frame in E1 as ((_ & _ & _ & _ & _ & _ & Em & _) & _).
    rewrite apply_reverb_active by (rewrite Em; exact Hm). reflexivity.
Qed.

(** The delay line carries over from one call to the next: the reverb of
    [B1 ++ B2] in one call is the reverb of [B1] followed by the reverb of
    [B2] on the engine the first call left, samples, final engine and
    exceptions alike. *)
Theorem apply_reverb_app (s : GuitarAmpEffects) (B1 B2 : list R) :
  apply_reverb (B1 ++ B2) s
  = match apply_reverb B1 s with
    | Ok (o1, s1) =>
        match apply_reverb B2 s1 with
        | Ok (o2, s2) => Ok (o1 ++ o2, s2)
        | Raise e => Raise e
        end
    | Raise e => Raise e
    end.
Proof. exact (apply_reverb_concat s B1 B2). Qed.

Section FlatChain.

Variable butter : nat -> btype -> Z -> result (list sos_section).

(** With the tone control flat the chain is the reverb of the shaped and
    scaled block. *)
Lemma process_flat (s : GuitarAmpEffects) (B : list R) :
  bass s = 0 -> mid s = 0 -> treble s = 0 ->
  process butter B s
  = apply_reverb (map (transfer (distortion s)) (map (fun x => x * gain s) B)) s.
Proof.
  intros Hb Hm Ht.
  destruct (process_stages butter s B) as (g & d & Hg & Hd & Hp).
  rewrite Hp. inversion Hg; subst g.
  rewrite apply_distortion_transfer in Hd. inversion Hd; subst d.
  rewrite apply_eq_bypass by assumption. reflexivity.
Qed.

(** With bass, mid and treble at 0 the output of the chain does not
    depend on how the stream is cut into blocks: processing [B1 ++ B2] in
    one call gives the samples, the final engine and the exceptions of
    processing [B1] and then [B2]. *)
Theorem process_app_flat (s : GuitarAmpEffects) (B1 B2 : list R)
    (Hb : bass s = 0) (Hm : mid s = 0) (Ht : treble s = 0) :
  process butter (B1 ++ B2) s
  = match process butter B1 s with
    | Ok (o1, s1) =>
        match process butter B2 s1 with
        | Ok (o2, s2) => Ok (o1 ++ o2, s2)
        | Raise e => Raise e
        end
    | Raise e => Raise e
    end.
Proof.
  rewrite !process_flat by assumption.
  rewrite !map_app, apply_reverb_concat.
  destruct (apply_reverb _ s) as [[o1 s1]|e] eqn:E1; [|reflexivity].
  apply apply_reverb_frame in E1 as ((_ & Eg & Ed & Eb & Em & Et & _ & _) & _).
  rewrite process_flat by congruence.
  rewrite Eg, Ed. reflexivity.
Qed.

(** A freshly constructed engine is transparent: whatever the sample
    rate, [process] returns the block it was given and leaves the engine
    as constructed, without requesting any filter design. *)
Theorem process_fresh_identity (sr : Z) (s0 : GuitarAmpEffects) (B : list R)
    (Hinit : init sr = Ok s0) :
  process butter B s0 = Ok (B, s0).
Proof.
  unfold init in Hinit. destruct (np_zeros (reverb_capacity sr)) as [buf|e];
    [|discriminate].
  inversion Hinit; subst s0.
  rewrite process_clean by reflexivity.
  rewrite apply_reverb_bypass by reflexivity. simpl.
  do 2 f_equal. rewrite <- (map_id B) at 2. apply map_ext. intros x. lra.
Qed.

End FlatChain.

Lemma process_app_flat_witness :
  process butter_100 ([1] ++ [2]) (set_reverb_mix (1/2) engine100)
  = match process butter_100 [1] (set_reverb_mix (1/2) engine100) with
    | Ok (o1, s1) =>
        match process butter_100 [2] s1 with
        | Ok (o2, s2) => Ok (o1 ++ o2, s2)
        | Raise e => Raise e
        end
    | Raise e => Raise e
    end.
Proof.
  apply (process_app_flat butter_100 (set_reverb_mix (1/2) engine100) [1] [2]);
    reflexivity.
Defined.

Lemma process_fresh_identity_witness :
  process butter_100 [1; 2; 3] engine100 = Ok ([1; 2; 3], engine100).
Proof.
  apply (process_fresh_identity butter_100 100 engine100 [1; 2; 3]).
  reflexivity.
Defined.

(** * Reverb stage: a delay of one capacity *)

Lemma slot_distinct (c t N : Z) :
  (0 <= c < N)%Z -> (0 < t < N)%Z -> ((c + t) mod N <> c)%Z.
Proof.
  intros Hc Ht. destruct (Z_lt_ge_dec (c + t) N) as [L|L].
  - rewrite Z.mod_small by lia. lia.
  - replace (c + t)%Z with ((c + t - N) + 1 * N)%Z by lia.
    rewrite Z_mod_plus_full, Z.mod_small by lia. lia.
Qed.

Lemma slot_0 (s : GuitarAmpEffects) :
  cursor_ok s -> slot s 0 = Z.to_nat (reverb_index s).
Proof.
  intros Hc. unfold slot. rewrite Z.add_0_r, Z.mod_small by exact Hc. reflexivity.
Qed.

Lemma slot_next (s : GuitarAmpEffects) (x d : R) (i : nat) :
  slot (reverb_next x d s) i = slot s (S i).
Proof.
  unfold slot, reverb_next. simpl reverb_index. simpl reverb_buffer_size.
  rewrite Zplus_mod_idemp_l. do 2 f_equal. lia.
Qed.

Lemma slot_later (s : GuitarAmpEffects) (i : nat) :
  cursor_ok s -> (Z.of_nat (S i) < reverb_buffer_size s)%Z ->
  slot s (S i) <> Z.to_nat (reverb_index s).
Proof.
  intros Hc Hi. unfold slot. unfold cursor_ok in Hc.
  pose proof (slot_distinct (reverb_index s) (Z.of_nat (S i)) (reverb_buffer_size s)
                Hc ltac:(lia)) as Hd.
  pose proof (Z.mod_pos_bound (reverb_index s + Z.of_nat (S i)) (reverb_buffer_size s)
                ltac:(lia)).
  lia.
Qed.

Lemma reverb_loop_delay (B : list R) : forall s : GuitarAmpEffects,
  cursor_ok s -> buffer_ok s ->
  (Z.of_nat (length B) <= reverb_buffer_size s)%Z ->
  exists out s', reverb_loop B s = Ok (out, s') /\
    (forall (i : nat) (x : R), B !! i = Some x ->
       exists d : R,
         reverb_buffer s !! slot s i = Some d /\
         out !! i = Some (x * (1 - reverb_mix s) + d * reverb_mix s) /\
         reverb_buffer s' !! slot s i = Some (x + d * (3/10))) /\
    (forall j : nat, (forall i : nat, (i < length B)%nat -> slot s i <> j) ->
       reverb_buffer s' !! j = reverb_buffer s !! j).
Proof.
  induction B as [|x rest IH]; intros s Hc Hb Hlen.
  - exists [], s. split; [reflexivity|]. split.
    + intros i y H. discriminate.
    + intros j _. reflexivity.
  - destruct (reverb_step_ok s x Hc Hb) as (d0 & Hd0 & Hstep).
    destruct (reverb_next_ok s x d0 Hc Hb) as [Hc1 Hb1].
    simpl length in Hlen.
    destruct (IH (reverb_next x d0 s) Hc1 Hb1) as (out & s' & Hloop & Hvis & Hrest).
    { unfold reverb_next. simpl. lia. }
    exists ((x * (1 - reverb_mix s) + d0 * reverb_mix s) :: out), s'.
    split.
    { simpl. unfold bind at 1. rewrite Hstep.
      unfold bind at 1. rewrite Hloop. reflexivity. }
    assert (Hlt : (Z.to_nat (reverb_index s) < length (reverb_buffer s))%nat).
    { unfold cursor_ok, buffer_ok in *. lia. }
    split.
    + intros [|i] y Hy.
      * simpl in Hy. inversion Hy; subst y. exists d0.
        rewrite slot_0 by exact Hc.
        split; [exact Hd0|]. split; [reflexivity|].
        rewrite Hrest.
        -- unfold reverb_next. simpl. apply list_lookup_insert_eq. exact Hlt.
        -- intros i Hi. rewrite slot_next. apply slot_later; [exact Hc | lia].
      * simpl in Hy. destruct (Hvis i y Hy) as (d & Hd & Ho & Hs).
        pose proof (lookup_lt_Some _ _ _ Hy) as Hi.
        rewrite slot_next in Hd, Hs. exists d.
        split.
        { unfold reverb_next in Hd. simpl in Hd.
          rewrite list_lookup_insert_ne in Hd; [exact Hd|].
          intros E. symmetry in E. revert E. apply slot_later; [exact Hc | lia]. }
        split; [exact Ho | exact Hs].
    + intros j Hj. rewrite Hrest.
      * unfold reverb_next. simpl. apply list_lookup_insert_ne.
        rewrite <- slot_0 by exact Hc. apply Hj. simpl. lia.
      * intros i Hi. rewrite slot_next. apply Hj. simpl. lia.
Qed.

(** The reverb is a delay of exactly one capacity.  With an active mix, a
    well-formed delay line and a block no longer than the capacity, output
    sample [i] is the dry sample weighted by [1 - mix] plus the sample the
    buffer held under the cursor before the call weighted by [mix]; that
    slot then holds the dry sample plus 0.3 times its old content, and
    every slot the block did not pass over keeps its content. *)
Theorem apply_reverb_delay (s : GuitarAmpEffects) (B : list R)
    (Hm : reverb_mix s <> 0) (Hc : cursor_ok s) (Hb : buffer_ok s)
    (Hlen : (Z.of_nat (length B) <= reverb_buffer_size s)%Z) :
  exists out s', apply_reverb B s = Ok (out, s') /\
    (forall (i : nat) (x : R), B !! i = Some x ->
       exists d : R,
         reverb_buffer s !! slot s i = Some d /\
         out !! i = Some (x * (1 - reverb_mix s) + d * reverb_mix s) /\
         reverb_buffer s' !! slot s i = Some (x + d * (3/10))) /\
    (forall j : nat, (forall i : nat, (i < length B)%nat -> slot s i <> j) ->
       reverb_buffer s' !! j = reverb_buffer s !! j).
Proof.
  rewrite apply_reverb_active by exact Hm.
  apply reverb_loop_delay; assumption.
Qed.

Lemma apply_reverb_delay_witness :
  exists out s',
    apply_reverb [1; 2] (set_reverb_mix (1/2) engine100) = Ok (out, s') /\
    (forall (i : nat) (x : R), [1; 2] !! i = Some x ->
       exists d : R,
         reverb_buffer (set_reverb_mix (1/2) engine100)
           !! slot (set_reverb_mix (1/2) engine100) i = Some d /\
         out !! i = Some (x * (1 - reverb_mix (set_reverb_mix (1/2) engine100))
                          + d * reverb_mix (set_reverb_mix (1/2) engine100)) /\
         reverb_buffer s' !! slot (set_reverb_mix (1/2) engine100) i
         = Some (x + d * (3/10))) /\
    (forall j : nat,
       (forall i : nat, (i < 2)%nat -> slot (set_reverb_mix (1/2) engine100) i <> j) ->
       reverb_buffer s' !! j = reverb_buffer (set_reverb_mix (1/2) engine100) !! j).
Proof.
  apply (apply_reverb_delay (set_reverb_mix (1/2) engine100) [1; 2]).
  - simpl. lra.
  - unfold cursor_ok. simpl. lia.
  - reflexivity.
  - simpl. lia.
Defined.

(** * Reverb stage: stability of the feedback loop *)

Lemma mix_bound (x d m K M : R) :
  0 <= m <= 1 -> M <= K -> - M <= x <= M -> - K <= d <= K ->
  - K <= x * (1 - m) + d * m <= K.
Proof. intros Hm HK Hx Hd. split; nra. Qed.

Lemma feedback_bound (x d M : R) :
  - M <= x <= M -> - (M * (10/7)) <= d <= M * (10/7) ->
  - (M * (10/7)) <= x + d * (3/10) <= M * (10/7).
Proof. intros Hx Hd. split; lra. Qed.

Lemma Rabs_le_between (a b : R) : Rabs a <= b -> - b <= a <= b.
Proof. unfold Rabs. destruct (Rcase_abs a); lra. Qed.

Lemma reverb_loop_bounded (M : R) (B : list R) : forall s : GuitarAmpEffects,
  cursor_ok s -> buffer_ok s -> 0 <= M -> 0 <= reverb_mix s <= 1 ->
  Forall (fun x => - M <= x <= M) B ->
  Forall (fun d => - (M * (10/7)) <= d <= M * (10/7)) (reverb_buffer s) ->
  exists out s', reverb_loop B s = Ok (out, s') /\
    Forall (fun y => - (M * (10/7)) <= y <= M * (10/7)) out /\
    Forall (fun d => - (M * (10/7)) <= d <= M * (10/7)) (reverb_buffer s').
Proof.
  induction B as [|x rest IH]; intros s Hc Hb HM Hm Hin Hbuf.
  - exists [], s. split; [reflexivity|]. split; [constructor | exact Hbuf].
  - apply Forall_cons in Hin as [Hx Hrest].
    destruct (reverb_step_ok s x Hc Hb) as (d & Hd & Hstep).
    destruct (reverb_next_ok s x d Hc Hb) as [Hc1 Hb1].
    pose proof (proj1 (Forall_lookup _ _) Hbuf _ _ Hd) as Hdb. simpl in Hdb.
    destruct (IH (reverb_next x d s) Hc1 Hb1 HM) as (out & s' & Hloop & Hout & Hfin).
    + exact Hm.
    + exact Hrest.
    + unfold reverb_next. simpl. apply Forall_insert; [exact Hbuf|].
      apply feedback_bound; assumption.
    + exists ((x * (1 - reverb_mix s) + d * reverb_mix s) :: out), s'.
      split.
      { simpl. unfold bind at 1. rewrite Hstep.
        unfold bind at 1. rewrite Hloop. reflexivity. }
      split; [|exact Hfin].
      constructor; [|exact Hout].
      apply (mix_bound x d (reverb_mix s) (M * (10/7)) M); try assumption. lra.
Qed.

(** The feedback loop is stable.  With the mix in [0, 1], input samples of
    magnitude at most [M] and a delay line whose samples have magnitude at
    most [M / 0.7], every output sample has magnitude at most [M / 0.7] and
    so has every sample the delay line holds afterwards. *)
Theorem apply_reverb_bounded (s : GuitarAmpEffects) (B : list R) (M : R)
    (Hc : cursor_ok s) (Hb : buffer_ok s)
    (HM : 0 <= M) (Hm : 0 <= reverb_mix s <= 1)
    (Hin : Forall (fun x => Rabs x <= M) B)
    (Hbuf : Forall (fun d => Rabs d <= M * (10/7)) (reverb_buffer s)) :
  exists out s', apply_reverb B s = Ok (out, s') /\
    Forall (fun y => Rabs y <= M * (10/7)) out /\
    Forall (fun d => Rabs d <= M * (10/7)) (reverb_buffer s').
Proof.
  assert (Hin' : Forall (fun x => - M <= x <= M) B).
  { eapply Forall_impl; [exact Hin|]. intros x. apply Rabs_le_between. }
  assert (Hbuf' : Forall (fun d => - (M * (10/7)) <= d <= M * (10/7)) (reverb_buffer s)).
  { eapply Forall_impl; [exact Hbuf|]. intros x. apply Rabs_le_between. }
  destruct (Req_dec_T (reverb_mix s) 0) as [E|E].
  - rewrite apply_reverb_bypass by exact E. exists B, s.
    split; [reflexivity|]. split; [|exact Hbuf].
    eapply Forall_impl; [exact Hin'|]. intros x Hx. simpl in Hx.
    apply Rabs_le. lra.
  - rewrite apply_reverb_active by exact E.
    destruct (reverb_loop_bounded M B s Hc Hb HM Hm Hin' Hbuf')
      as (out & s' & Hrun & Hout & Hfin).
    exists out, s'. split; [exact Hrun|]. split.
    + eapply Forall_impl; [exact Hout|]. intros y. apply Rabs_le.
    + eapply Forall_impl; [exact Hfin|]. intros y. apply Rabs_le.
Qed.

Lemma apply_reverb_bounded_witness :
  exists out s',
    apply_reverb [1; -1; 1/2] (set_reverb_mix (1/2) engine100) = Ok (out, s') /\
    Forall (fun y => Rabs y <= 1 * (10/7)) out /\
    Forall (fun d => Rabs d <= 1 * (10/7)) (reverb_buffer s').
Proof.
  apply (apply_reverb_bounded (set_reverb_mix (1/2) engine100) [1; -1; 1/2] 1).
  - unfold cursor_ok. simpl. lia.
  - reflexivity.
  - lra.
  - simpl. lra.
  - repeat (apply Forall_cons_2; [apply Rabs_le; lra|]). apply Forall_nil_2.
  - simpl. repeat (apply Forall_cons_2; [apply Rabs_le; lra|]). apply Forall_nil_2.
Defined.

(** * Reverb stage: an engine without delay line *)

Lemma reverb_capacity_zero (sr : Z) : (-20 < sr < 20)%Z -> reverb_capacity sr = 0%Z.
Proof.
  intros H. pose proof (reverb_capacity_neg sr). pose proof (reverb_capacity_small sr).
  lia.
Qed.

(** A sample rate strictly between -20 and 20 constructs an engine whose
    delay line has no slot.  Its reverb passes every block while the mix is
    0, returns the empty block for the empty block, and raises [IndexError]
    on every non-empty block as soon as the mix is not 0. *)
Theorem reverb_without_delay_line (sr : Z) (Hsr : (-20 < sr < 20)%Z) :
  exists s0 : GuitarAmpEffects,
    init sr = Ok s0 /\
    reverb_buffer s0 = [] /\
    (forall B : list R, apply_reverb B s0 = Ok (B, s0)) /\
    (forall mix : R,
       apply_reverb [] (set_reverb_mix mix s0) = Ok ([], set_reverb_mix mix s0)) /\
    (forall (mix x : R) (B : list R), mix <> 0 ->
       apply_reverb (x :: B) (set_reverb_mix mix s0) = Raise IndexError).
Proof.
  pose proof (reverb_capacity_zero sr Hsr) as Hcap.
  eexists. split.
  { unfold init, np_zeros. rewrite Hcap. simpl. reflexivity. }
  split; [reflexivity|]. split; [|split].
  - intros B. apply apply_reverb_bypass. reflexivity.
  - intros mix. destruct (Req_dec_T mix 0) as [E|E].
    + apply apply_reverb_bypass. exact E.
    + rewrite apply_reverb_active by exact E. reflexivity.
  - intros mix x B Hmix. rewrite apply_reverb_active by exact Hmix.
    reflexivity.
Qed.

Lemma reverb_without_delay_line_witness :
  exists s0 : GuitarAmpEffects,
    init 10 = Ok s0 /\
    reverb_buffer s0 = [] /\
    (forall B : list R, apply_reverb B s0 = Ok (B, s0)) /\
    (forall mix : R,
       apply_reverb [] (set_reverb_mix mix s0) = Ok ([], set_reverb_mix mix s0)) /\
    (forall (mix x : R) (B : list R), mix <> 0 ->
       apply_reverb (x :: B) (set_reverb_mix mix s0) = Raise IndexError).
Proof.
  apply (reverb_without_delay_line 10). lia.
Defined.

(** * The amplifier: presets *)

Lemma dict_get_None {V : Type} (d : list (string * V)) (k : string) :
  dict_get d k = None <-> ~ In k (dict_keys d).
Proof.
  induction d as [|[k' v] d IH]; simpl.
  - tauto.
  - destruct (String.eqb_spec k k') as [E|E].
    + split; [discriminate|]. intros H. exfalso. apply H. left. congruence.
    + rewrite IH. split.
      * intros H [H1|H1]; [congruence | tauto].
      * intros H H1. apply H. right. exact H1.
Qed.

Lemma preset_dict_lookup (g d b m t r : R) :
  preset_dict g d b m t r !! "gain" = Some g /\
  preset_dict g d b m t r !! "distortion" = Some d /\
  preset_dict g d b m t r !! "bass" = Some b /\
  preset_dict g d b m t r !! "mid" = Some m /\
  preset_dict g d b m t r !! "treble" = Some t /\
  preset_dict g d b m t r !! "reverb_mix" = Some r.
Proof.
  unfold preset_dict. repeat split;
    rewrite ?lookup_insert_ne by discriminate; apply lookup_insert_eq.
Qed.

(** Loading a full preset whose six values are in range stores exactly
    these values. *)
Lemma set_parameters_preset (g d b m t r : R) (e : GuitarAmpEffects) :
  1/10 <= g <= 5 -> 0 <= d <= 1 -> -1 <= b <= 1 -> -1 <= m <= 1 ->
  -1 <= t <= 1 -> 0 <= r <= 1 ->
  set_parameters (preset_dict g d b m t r) e
  = Ok (tt, mkEffects (sample_rate e) g d b m t r
              (reverb_buffer_size e) (reverb_buffer e) (reverb_index e)).
Proof.
  intros Hg Hd Hb Hm Ht Hr.
  destruct (preset_dict_lookup g d b m t r) as (L1 & L2 & L3 & L4 & L5 & L6).
  unfold set_parameters, clip_field.
  rewrite L1, L2, L3, L4, L5, L6. simpl.
  rewrite !np_clip_id by assumption. reflexivity.
Qed.

Lemma preset_dict_inj (g d b m t r g' d' b' m' t' r' : R) :
  preset_dict g d b m t r = preset_dict g' d' b' m' t' r' ->
  g = g' /\ d = d' /\ b = b' /\ m = m' /\ t = t' /\ r = r'.
Proof.
  intros H.
  destruct (preset_dict_lookup g d b m t r) as (L1 & L2 & L3 & L4 & L5 & L6).
  destruct (preset_dict_lookup g' d' b' m' t' r') as (K1 & K2 & K3 & K4 & K5 & K6).
  rewrite H in L1, L2, L3, L4, L5, L6.
  repeat split; congruence.
Qed.

(** Round trip through the built-in presets: loading any entry of the
    preset table makes [get_current_settings] report the entry's name and
    exactly its six values (none of them is clamped), and leaves the delay
    line of the effects processor as it was. *)
Theorem load_preset_round_trip (amp : VirtualAmp) (name : string) (g d b m t r : R)
    (Htable : presets amp = amp_presets)
    (Hentry : In (name, preset_dict g d b m t r) amp_presets) :
  exists amp' : VirtualAmp,
    load_preset name amp = Ok amp' /\
    get_current_settings amp' = mkSettings name g d b m t r /\
    presets amp' = presets amp /\
    reverb_buffer (effects amp') = reverb_buffer (effects amp) /\
    reverb_index (effects amp') = reverb_index (effects amp).
Proof.
  unfold load_preset. rewrite Htable.
  unfold amp_presets in Hentry. simpl in Hentry.
  destruct Hentry as [H|[H|[H|[H|[H|[]]]]]];
    pose proof (f_equal fst H) as Hn; pose proof (f_equal snd H) as Hd;
    cbn [fst snd] in Hn, Hd; subst name;
    apply preset_dict_inj in Hd as (<- & <- & <- & <- & <- & <-);
    unfold amp_presets; cbn -[preset_dict set_parameters];
    rewrite set_parameters_preset by lra;
    eexists; (split; [reflexivity|]); repeat split.
Qed.

Lemma load_preset_round_trip_witness :
  exists amp' : VirtualAmp,
    load_preset "metal" (mkAmp engine100 amp_presets "clean") = Ok amp' /\
    get_current_settings amp' = mkSettings "metal" 4.0 0.9 0.4 (-0.2) 0.5 0.05 /\
    presets amp' = amp_presets /\
    reverb_buffer (effects amp') = reverb_buffer engine100 /\
    reverb_index (effects amp') = reverb_index engine100.
Proof.
  apply (load_preset_round_trip (mkAmp engine100 amp_presets "clean") "metal").
  - reflexivity.
  - simpl. tauto.
Defined.

(** [load_preset] never raises.  A name that is not a key of the preset
    table leaves the amplifier exactly as it was, current preset included;
    a name that is a key becomes the current preset. *)
Theorem load_preset_outcome (amp : VirtualAmp) (name : string) :
  (~ In name (list_presets amp) -> load_preset name amp = Ok amp) /\
  (In name (list_presets amp) ->
     exists amp' : VirtualAmp,
       load_preset name amp = Ok amp' /\
       current_preset amp' = name /\ presets amp' = presets amp).
Proof.
  unfold load_preset, list_presets. split; intros H.
  - apply dict_get_None in H. rewrite H. reflexivity.
  - destruct (dict_get (presets amp) name) as [kw|] eqn:E.
    + eexists. split; [reflexivity|]. split; reflexivity.
    + apply dict_get_None in E. contradiction.
Qed.

Lemma load_preset_outcome_witness :
  load_preset "jazz" (mkAmp engine100 amp_presets "clean")
  = Ok (mkAmp engine100 amp_presets "clean") /\
  exists amp' : VirtualAmp,
    load_preset "crunch" (mkAmp engine100 amp_presets "clean") = Ok amp' /\
    current_preset amp' = "crunch" /\ presets amp' = amp_presets.
Proof.
  destruct (load_preset_outcome (mkAmp engine100 amp_presets "clean") "jazz") as [H _].
  destruct (load_preset_outcome (mkAmp engine100 amp_presets "clean") "crunch") as [_ K].
  split.
  - apply H. simpl. intros [E|[E|[E|[E|[E|[]]]]]]; discriminate.
  - apply K. simpl. tauto.
Defined.



(** * The audio callback: what reaches the sound device *)




Section AmpCallback.

Variable butter : nat -> btype -> Z -> result (list sos_section).

(** With the amplifier's callback (the effects chain) the length check
    never discards a block: the device receives the processed block,
    clipped sample by sample to [-1, 1], the engine is the one [process]
    left, and an exception of [process] is the exception of the callback.
    Without a callback the device receives the clipped input. *)
Theorem audio_callback_process (audio_data : list R) (s : GuitarAmpEffects) :
  audio_callback_samples (Some (process butter)) audio_data s
  = match process butter audio_data s with
    | Ok (processed, s') => Ok (map (fun x => np_clip x (-1) 1) processed, s')
    | Raise e => Raise e
    end /\
  audio_callback_samples None audio_data s
  = Ok (map (fun x => np_clip x (-1) 1) audio_data, s).
Proof.
  split.
  - unfold audio_callback_samples, bind, ret.
    destruct (process butter audio_data s) as [[processed s']|e] eqn:E; [|reflexivity].
    apply process_frame in E as (Hlen & _).
    rewrite Hlen, Nat.eqb_refl. reflexivity.
  - unfold audio_callback_samples, bind, ret.
    rewrite Nat.eqb_refl. reflexivity.
Qed.

End AmpCallback.

(** * The chain: which calls return *)

Section Outcome.

Variable butter : nat -> btype -> Z -> result (list sos_section).

Lemma apply_eq_outcome (s : GuitarAmpEffects) (B : list R) :
  (exists out, apply_eq butter B s = Ok (out, s) /\ length out = length B) \/
  (exists (e : exn) (bt : btype),
     apply_eq butter B s = Raise e /\ butter 2 bt (sample_rate s) = Raise e).
Proof.
  unfold apply_eq, bind, get_self, lift, ret.
  destruct (negb (Reqb (bass s) 0));
    [destruct (butter 2 (Low 100) (sample_rate s)) as [sb|e] eqn:Db;
       [|right; exists e, (Low 100); split; [reflexivity | exact Db]]|];
    (destruct (negb (Reqb (treble s) 0));
       [destruct (butter 2 (High 3000) (sample_rate s)) as [st|e] eqn:Dt;
          [|right; exists e, (High 3000); split; [reflexivity | exact Dt]]|]);
    (destruct (negb (Reqb (mid s) 0));
       [destruct (butter 2 (Band 400 1600) (sample_rate s)) as [sm|e] eqn:Dm;
          [|right; exists e, (Band 400 1600); split; [reflexivity | exact Dm]]|]);
    (left; eexists; split; [reflexivity | tone_length]).
Qed.

(** On an engine whose delay line is well formed (cursor inside, buffer of
    the recorded capacity), whatever the six controls are, [process] either
    returns a block of the length of its input or raises an exception that
    a filter design raised; the reverb never raises [IndexError] or
    [ZeroDivisionError] there. *)
Theorem process_outcome (s : GuitarAmpEffects) (B : list R)
    (Hc : cursor_ok s) (Hb : buffer_ok s) :
  (exists out s', process butter B s = Ok (out, s') /\
     length out = length B /\ cursor_ok s' /\ buffer_ok s') \/
  (exists (e : exn) (bt : btype),
     process butter B s = Raise e /\ butter 2 bt (sample_rate s) = Raise e).
Proof.
  destruct (process_stages butter s B) as (g & d & Hg & Hd & Hp).
  rewrite Hp.
  apply apply_distortion_length in Hd. inversion Hg; subst g.
  rewrite length_map in Hd.
  destruct (apply_eq_outcome s d) as [(e & He & Hlen)|(x & bt & He & Hbt)].
  - left. rewrite He.
    destruct (Req_dec_T (reverb_mix s) 0) as [Hm|Hm].
    + rewrite apply_reverb_bypass by exact Hm. exists e, s.
      split; [reflexivity|]. split; [congruence|]. split; assumption.
    + rewrite apply_reverb_active by exact Hm.
      destruct (reverb_loop_total e s Hc Hb) as (out & s' & Hrun & Hl & Hc' & Hb' & _).
      exists out, s'. split; [exact Hrun|]. split; [congruence|]. split; assumption.
  - right. exists x, bt. rewrite He. split; [reflexivity | exact Hbt].
Qed.

End Outcome.

Lemma process_outcome_witness :
  (exists out s', process butter_44100 [1; 2] tone_engine = Ok (out, s') /\
     length out = length [1; 2] /\ cursor_ok s' /\ buffer_ok s') \/
  (exists (e : exn) (bt : btype),
     process butter_44100 [1; 2] tone_engine = Raise e /\
     butter_44100 2 bt (sample_rate tone_engine) = Raise e).
Proof.
  apply (process_outcome butter_44100 tone_engine [1; 2]).
  - unfold cursor_ok. simpl. lia.
  - reflexivity.
Defined.

(** * Instances of the invariant theorems *)

Lemma engine100_ok : engine_ok (set_reverb_mix (1/2) engine100).
Proof.
  split; [|split].
  - unfold params_ok. simpl. lra.
  - unfold cursor_ok. simpl. lia.
  - reflexivity.
Qed.

Lemma process_keeps_invariant_witness :
  exists out s',
    process butter_100 [1; 2] (set_reverb_mix (1/2) engine100) = Ok (out, s') /\
    length out = length [1; 2] /\
    same_controls (set_reverb_mix (1/2) engine100) s' /\
    engine_ok s'.
Proof.
  destruct (process butter_100 [1; 2] (set_reverb_mix (1/2) engine100))
    as [[out s']|e] eqn:E.
  - exists out, s'. split; [reflexivity|].
    destruct (process_keeps_invariant butter_100 _ _ _ _ E) as (Hl & Hs & Hi).
    split; [exact Hl|]. split; [exact Hs|]. apply Hi. apply engine100_ok.
  - exfalso. revert E. run_reverb. discriminate.
Defined.


(** * Binary64: order facts *)

Lemma SFcompare_refl (x : spec_float) :
  x <> S754_nan -> SFcompare x x = Some Eq.
Proof.
  destruct x as [s|s| |s m e]; intros H; simpl; try congruence.
  - destruct s; reflexivity.
  - rewrite Z.compare_refl, Pos.compare_cont_refl. destruct s; reflexivity.
Qed.


Lemma is_nan_spec (x : float) : is_nan x = true <-> Prim2SF x = S754_nan.
Proof.
  unfold is_nan. rewrite FloatAxioms.eqb_spec. unfold SFeqb. split.
  - intros H. destruct (Prim2SF x) eqn:E; try reflexivity;
      rewrite SFcompare_refl in H by congruence; discriminate.
  - intros ->. reflexivity.
Qed.




(** No comparison with a NaN holds. *)
Lemma leb_nan_r (x y : float) : is_nan y = true -> (x <=? y)%float = false.
Proof.
  rewrite is_nan_spec, FloatAxioms.leb_spec. intros ->. unfold SFleb.
  destruct (Prim2SF x); reflexivity.
Qed.

Lemma leb_nan_l (x y : float) : is_nan x = true -> (x <=? y)%float = false.
Proof.
  rewrite is_nan_spec, FloatAxioms.leb_spec. intros ->. reflexivity.
Qed.

(** ** [np.clip] on binary64 *)



Lemma in_range_not_nan (lo hi x : float) :
  F64.in_range lo hi x = true -> is_nan x = false.
Proof.
  unfold F64.in_range. intros H. apply andb_true_iff in H as [H _].
  destruct (is_nan x) eqn:E; [|reflexivity].
  rewrite (leb_nan_r lo x E) in H. discriminate.
Qed.

(** * Parameter store on binary64 *)




(** A NaN asked for the gain is stored as the gain, outside the declared
    range 0.1 to 5: the clamp of the claim does not happen for it. *)
Lemma set_parameters_stores_nan :
  F64.params_ok F64.engine44100 = true /\
  F64.gain <$> F64.state_of (F64.set_parameters {[ "gain" := nan ]} F64.engine44100)
    = Some nan /\
  F64.in_range 0.1 5 nan = false.
Proof.
  split; [reflexivity|]. split; [|reflexivity].
  unfold F64.set_parameters, F64.clip_field.
  rewrite lookup_singleton_eq. rewrite !lookup_singleton_ne by discriminate.
  reflexivity.
Qed.


(** * Finiteness on binary64 *)

(** C8 as stated fails on the gain stage alone: on the engine
    [GuitarAmpEffects(44100)] after [set_parameters(gain=5.0)], every
    control in its range, a block of 1024 finite samples of 2^1023 comes
    out as 1024 infinities, whatever [np.tanh] and [signal.butter]
    compute. *)
Lemma process_overflows :
  F64.params_ok F64.loud_engine = true /\
  length F64.loud_block = 1024%nat /\
  forallb is_finite F64.loud_block = true /\
  (forall (np_tanh : float -> float)
          (butter : nat -> btype -> Z -> result (list F64.sos_section)),
     F64.process np_tanh butter F64.loud_block F64.loud_engine
     = Ok (replicate 1024 infinity, F64.loud_engine)) /\
  is_finite infinity = false.
Proof.
  split; [reflexivity|]. split; [reflexivity|]. split; [reflexivity|].
  split; [|reflexivity].
  intros np_tanh butter. vm_compute. reflexivity.
Qed.

(** * Determinism of the chain *)




(** * The delay line on binary64 *)






(** ** Block lengths through the tone control on binary64 *)







Section Chain64.

Variable np_tanh : float -> float.
Variable butter : nat -> btype -> Z -> result (list F64.sos_section).



End Chain64.



Section ChainState.

Variable butter : nat -> btype -> Z -> result (list sos_section).
Variable np_tanh : float -> float.
Variable butter64 : nat -> btype -> Z -> result (list F64.sos_section).



End ChainState.

